(** * Bytestream helper: Varint, Writer and Reader

    A shallow embedding of the TypeScript sources of the bytestream helper
    and the properties of the codec that follow from the code: the [Varint]
    class of [varint.ts], the [Writer] class of [writer.ts] and the [Reader]
    class of [reader.ts], each in its latest version (the writer and the
    reader with the general [uint_t] for every width, [append] and
    [compact]).

    Conventions of the embedding.
    - A [BigInteger] and an integral JavaScript number are both a [Z]; where
      the source leaves the integers (the 32-bit shift of [Writer.varint], the
      double-precision product of [Varint.decode]) the wrap-around or the
      overflow is written out.
    - A [Buffer] is a [list Z] of octets, a JavaScript string is a [string].
      Where two objects hold the same [Buffer] (module [Shared]) a buffer is
      a reference into a heap of such lists.
    - A method of a class is a function from the object's state to a
      completion (a returned value or a thrown exception) and the state the
      call leaves behind; an exception does not undo the assignments made
      before it was thrown. *)

From Stdlib Require Import ZArith List String Ascii Bool Lia Sorted.
From stdpp Require Import base numbers list.

Local Open Scope Z_scope.

(** ** Completions and the state-and-exception monad *)

Inductive exn : Type :=
| Error (msg : string)
| RangeError (msg : string).

Inductive completion (A : Type) : Type :=
| Return (a : A)
| Throw (e : exn).

Arguments Return {A} a.
Arguments Throw {A} e.

(** A method body over the object state [S]. *)
Definition M (S A : Type) : Type := S -> completion A * S.

Definition ret {S A} (a : A) : M S A := fun s => (Return a, s).

Definition throw {S A} (e : exn) : M S A := fun s => (Throw e, s).

Definition bind {S A B} (m : M S A) (k : A -> M S B) : M S B :=
  fun s =>
    match m s with
    | (Return a, s') => k a s'
    | (Throw e, s') => (Throw e, s')
    end.

Definition get {S} : M S S := fun s => (Return s, s).

(** A pure computation that may throw, run inside a method. *)
Definition lift {S A} (c : completion A) : M S A := fun s => (c, s).

Notation "'let*' x ':=' m 'in' k" := (bind m (fun x => k))
  (at level 10, x name, m at level 100, k at level 200).
Notation "m ';;' k" := (bind m (fun _ => k))
  (at level 100, k at level 200, right associativity).

(** ** JavaScript numbers: the 32-bit operators *)

Module JS.

(** [ToInt32]: the operand of [<<], [>>], [|] and [&] as a signed 32-bit
    integer. *)
Definition ToInt32 (z : Z) : Z := (z + 2 ^ 31) mod 2 ^ 32 - 2 ^ 31.

(** [a << n] *)
Definition shl (a n : Z) : Z := ToInt32 (Z.shiftl (ToInt32 a) (n mod 32)).

(** [a >> n], sign-propagating *)
Definition sar (a n : Z) : Z := Z.shiftr (ToInt32 a) (n mod 32).

(** [a | b] *)
Definition bor (a b : Z) : Z := Z.lor (ToInt32 a) (ToInt32 b).

(** [a & b] *)
Definition band (a b : Z) : Z := Z.land (ToInt32 a) (ToInt32 b).

(** [m * Math.pow(2, shift)] for an integer [0 <= m < 2^53] and an integer
    [shift >= 0], as an IEEE-754 double: [Math.pow(2, shift)] is a finite
    double up to [shift = 1023] and [Infinity] beyond; the product of the
    integer [m] by a power of two is exact while it stays below [2^1024]
    and [Infinity] from there on ([0 * Infinity] is [NaN]). [None] stands
    for the two values that are not numbers of the model, [Infinity] and
    [NaN]. *)
Definition mul_pow2 (m shift : Z) : option Z :=
  if 1024 <=? shift then None
  else if m * 2 ^ shift <? 2 ^ 1024 then Some (m * 2 ^ shift)
  else None.

(** [s.padStart(targetLength, "0")] *)
Definition padStart (s : string) (targetLength : Z) : string :=
  String.append
    (string_of_list_ascii
       (replicate (Z.to_nat (targetLength - Z.of_nat (String.length s))) "0"%char))
    s.

End JS.

(** ** The big-integer library, as far as the codec uses it

    [BigInteger] values are unbounded integers; [add], [or], [and],
    [shiftLeft], [shiftRight], [divide], [compare] are the operations of [Z]
    ([Z.lor] and [Z.land] are the two's-complement operations the library
    implements on negative numbers, [divide] truncates). What is modelled
    here is the conversion to and from base-16 text. *)

Module BigInteger.

Definition alphabet : string := "0123456789abcdefghijklmnopqrstuvwxyz".

(** [stringify(digit)]: the digit's character in the default alphabet. *)
Definition stringify (d : Z) : ascii :=
  match String.get (Z.to_nat d) alphabet with
  | Some c => c
  | None => "?"%char
  end.

(** The loop of [toBase(n, 16)] for [n >= 0]:
    [while (left >= base) { out.push(left mod base); left = left / base }
     out.push(left); return out.reverse()].
    [out] is kept in the reversed order, so pushing is consing.  The loop
    runs once per base-16 digit; [fuel] bounds it and [toBase] passes the
    binary length of [n], which is never reached (see [toBase_digits]). *)
Fixpoint toBase_loop (fuel : nat) (left : Z) (out : list Z) : list Z :=
  match fuel with
  | O => left :: out
  | S fuel' =>
      if 16 <=? left
      then toBase_loop fuel' (left / 16) (left mod 16 :: out)
      else left :: out
  end.

Definition toBase (n : Z) : list Z :=
  toBase_loop (Z.to_nat (Z.log2 n)) n [].

(** [n.toString(16)] *)
Definition toString16 (n : Z) : string :=
  if n <? 0
  then String "-"%char (string_of_list_ascii (map stringify (toBase (- n))))
  else string_of_list_ascii (map stringify (toBase n)).

(** The value of a character as a digit: its index in the alphabet, after
    [toLowerCase]. *)
Definition digit_of_char (c : ascii) : option Z :=
  let n := Z.of_N (N_of_ascii c) in
  if (48 <=? n) && (n <=? 57) then Some (n - 48)
  else if (97 <=? n) && (n <=? 122) then Some (n - 87)
  else if (65 <=? n) && (n <=? 90) then Some (n - 55)
  else None.

(** The digits of [parseBase(text, 16)], accumulated most significant
    first; a character that is no digit of base 16 throws. *)
Fixpoint parse_digits (s : string) (acc : Z) : option Z :=
  match s with
  | EmptyString => Some acc
  | String c rest =>
      match digit_of_char c with
      | Some d => if d <? 16 then parse_digits rest (acc * 16 + d) else None
      | None => None
      end
  end.

(** [BigInteger(text, 16)].  A leading ["-"] negates; the library's
    [<digits>] syntax for multi-character digits is not modelled (such a
    text is rejected here); no hex dump of a buffer contains it. *)
Definition parse16 (text : string) : completion Z :=
  match text with
  | String "-"%char rest =>
      match parse_digits rest 0 with
      | Some v => Return (- v)
      | None => Throw (Error "not a valid digit")
      end
  | _ =>
      match parse_digits text 0 with
      | Some v => Return v
      | None => Throw (Error "not a valid digit")
      end
  end.

End BigInteger.

(** ** Node's [Buffer] *)

Module Buffer.

Definition t : Type := list Z.

Definition length (b : t) : Z := Z.of_nat (List.length b).

(** [Buffer.alloc(size)]: zero-filled; a negative size is refused. *)
Definition alloc (size : Z) : completion t :=
  if size <? 0 then Throw (RangeError "ERR_INVALID_ARG_VALUE size")
  else Return (replicate (Z.to_nat size) 0).

(** [Buffer.from(array)]: every entry is truncated to an octet. *)
Definition from_array (a : list Z) : t := map (fun x => Z.land x 255) a.

(** The value of a hexadecimal character, either case. *)
Definition unhex (c : ascii) : option Z :=
  let n := Z.of_N (N_of_ascii c) in
  if (48 <=? n) && (n <=? 57) then Some (n - 48)
  else if (97 <=? n) && (n <=? 102) then Some (n - 87)
  else if (65 <=? n) && (n <=? 70) then Some (n - 55)
  else None.

(** [Buffer.from(text, 'hex')]: pairs of hexadecimal characters are decoded
    until the first pair that is not hexadecimal; a trailing single
    character is dropped. *)
Fixpoint from_hex (s : string) : t :=
  match s with
  | String a (String b rest) =>
      match unhex a, unhex b with
      | Some x, Some y => Z.lor (Z.shiftl x 4) y :: from_hex rest
      | _, _ => []
      end
  | _ => []
  end.

(** [Buffer.from(text)] (UTF-8) for a text of 7-bit characters. *)
Definition from_utf8 (s : string) : t :=
  map (fun c => Z.of_N (N_of_ascii c)) (list_ascii_of_string s).

Definition hexchar (d : Z) : ascii :=
  match String.get (Z.to_nat d) "0123456789abcdef" with
  | Some c => c
  | None => "?"%char
  end.

(** [buf.toString('hex')] *)
Fixpoint toString_hex (b : t) : string :=
  match b with
  | [] => EmptyString
  | x :: rest => String (hexchar (x / 16)) (String (hexchar (x mod 16)) (toString_hex rest))
  end.

(** An index argument of [slice]: negative counts from the end, and the
    result is clamped to the buffer. *)
Definition clamp (len i : Z) : Z :=
  if i <? 0 then Z.max (len + i) 0 else Z.min i len.

(** [buf.slice(start, end)] *)
Definition slice (b : t) (start end_ : Z) : t :=
  let s := clamp (length b) start in
  let e := clamp (length b) end_ in
  take (Z.to_nat (e - s)) (drop (Z.to_nat s) b).

(** [buf.slice(start)] *)
Definition slice_from (b : t) (start : Z) : t := slice b start (length b).

(** [Buffer.concat([a, b])] *)
Definition concat (a b : t) : t := a ++ b.

(** [buf[position] = value]: an index outside the buffer is ignored. *)
Definition set (b : t) (position value : Z) : t :=
  if (0 <=? position) && (position <? length b)
  then <[Z.to_nat position := Z.land value 255]> b
  else b.

(** The bounds check of the fixed-width readers: [offset] must leave
    [width] octets inside the buffer. *)
Definition in_range (b : t) (offset width : Z) : bool :=
  (0 <=? offset) && (offset + width <=? length b).

(** [boundsError(offset, buf.length - width)] for an integral offset that
    failed the bounds check: a buffer shorter than the width has no valid
    offset at all, which is [ERR_BUFFER_OUT_OF_BOUNDS]; otherwise it is the
    offset that is out of range.  Both are [RangeError]s. *)
Definition boundsError (b : t) (width : Z) : exn :=
  if length b - width <? 0
  then RangeError "ERR_BUFFER_OUT_OF_BOUNDS"
  else RangeError "ERR_OUT_OF_RANGE offset".

(** The unsigned big-endian value of a run of octets. *)
Definition be_value (l : list Z) : Z := fold_left (fun acc x => acc * 256 + x) l 0.

Definition signed (bits v : Z) : Z :=
  if v <? 2 ^ (bits - 1) then v else v - 2 ^ bits.

(** [buf.readUInt8(offset)] *)
Definition readUInt8 (b : t) (offset : Z) : completion Z :=
  if in_range b offset 1
  then Return (be_value (slice b offset (offset + 1)))
  else Throw (boundsError b 1).

(** [buf.readInt8(offset)] *)
Definition readInt8 (b : t) (offset : Z) : completion Z :=
  if in_range b offset 1
  then Return (signed 8 (be_value (slice b offset (offset + 1))))
  else Throw (boundsError b 1).

(** [buf.readInt16BE(offset)], [buf.readInt32BE(offset)] *)
Definition readIntBE (width : Z) (b : t) (offset : Z) : completion Z :=
  if in_range b offset width
  then Return (signed (8 * width) (be_value (slice b offset (offset + width))))
  else Throw (boundsError b width).

(** [buf.readInt16LE(offset)], [buf.readInt32LE(offset)] *)
Definition readIntLE (width : Z) (b : t) (offset : Z) : completion Z :=
  if in_range b offset width
  then Return (signed (8 * width) (be_value (reverse (slice b offset (offset + width)))))
  else Throw (boundsError b width).

(** The groups of eight octets of a buffer, each reversed. *)
Fixpoint swap_groups (groups : nat) (b : t) : t :=
  match groups with
  | O => []
  | S g => reverse (take 8 b) ++ swap_groups g (drop 8 b)
  end.

(** [buf.swap64()]: the length must be a multiple of eight. *)
Definition swap64 (b : t) : completion t :=
  if length b mod 8 =? 0
  then Return (swap_groups (Nat.div (List.length b) 8) b)
  else Throw (RangeError "ERR_INVALID_BUFFER_SIZE 64-bits").

(** The buffer after the slice from [start] on, a view of the same
    memory, was overwritten by [content]: [slice] shares the memory of the
    buffer it was taken from, and [swap64] swaps in place. *)
Definition write_back (b : t) (start : Z) (content : t) : t :=
  let s := Z.to_nat (clamp (length b) start) in
  take s b ++ content ++ drop (s + List.length content) b.

(** The [width] low octets of [v], least significant first: the two's
    complement octets the fixed-width writers store. *)
Fixpoint le_octets (width : nat) (v : Z) : list Z :=
  match width with
  | O => []
  | S width' => v mod 256 :: le_octets width' (v / 256)
  end.

(** [buf.writeInt8(value, offset)], [buf.writeInt16LE(value, offset)],
    [buf.writeInt32LE(value, offset)]: the value is checked against the
    signed range of the width, then the offset against the buffer. *)
Definition writeIntLE (width : Z) (b : t) (value offset : Z) : completion t :=
  if (value <? - 2 ^ (8 * width - 1)) || (2 ^ (8 * width - 1) - 1 <? value)
  then Throw (RangeError "ERR_OUT_OF_RANGE value")
  else if in_range b offset width
  then Return (write_back b offset (le_octets (Z.to_nat width) value))
  else Throw (boundsError b width).

(** [buf.writeInt16BE(value, offset)], [buf.writeInt32BE(value, offset)] *)
Definition writeIntBE (width : Z) (b : t) (value offset : Z) : completion t :=
  if (value <? - 2 ^ (8 * width - 1)) || (2 ^ (8 * width - 1) - 1 <? value)
  then Throw (RangeError "ERR_OUT_OF_RANGE value")
  else if in_range b offset width
  then Return (write_back b offset (reverse (le_octets (Z.to_nat width) value)))
  else Throw (boundsError b width).

End Buffer.

(** ** [varint.ts] *)

Module Varint.

(** The [do ... while (b >= 0x80)] loop of [decode]; [rest] is the buffer
    from [counter] on, so [counter >= buf.length] is [rest = []].  The
    addend [value] is a JavaScript number: a 32-bit shift below [shift = 28]
    and a double-precision product from there on.  [result.add(value)]
    converts the number with [BigInt(value)] (Node 12 and later, which the
    package asks for, have [BigInt], and the library uses it): exactly for
    a finite integral double, with a [RangeError] for [Infinity] and
    [NaN]. *)
Fixpoint decode_loop (rest : list Z) (shift result : Z) : completion Z :=
  match rest with
  | [] => Throw (RangeError "Could not decode varint")
  | b :: rest' =>
      let value :=
        if shift <? 28
        then Some (JS.shl (JS.band b 0x7f) shift)
        else JS.mul_pow2 (JS.band b 0x7f) shift in
      match value with
      | None => Throw (RangeError "cannot be converted to a BigInt")
      | Some v =>
          let result := result + v in
          if 0x80 <=? b
          then decode_loop rest' (shift + 7) result
          else Return result
      end
  end.

Definition decode (buf : Buffer.t) : completion Z := decode_loop buf 0 0.

(** [while (num.greaterOrEquals(Math.pow(2, 31)))]: one iteration per
    seven bits of [num]; [fuel] bounds the iterations. *)
Fixpoint encode_loop1 (fuel : nat) (num : Z) (out : list Z) : Z * list Z :=
  match fuel with
  | O => (num, out)
  | S fuel' =>
      if 2 ^ 31 <=? num
      then encode_loop1 fuel' (Z.quot num 128) (out ++ [Z.lor (Z.land num 0xFF) 0x80])
      else (num, out)
  end.

(** [while (num.and(~0x7F).greater(0))] *)
Fixpoint encode_loop2 (fuel : nat) (num : Z) (out : list Z) : Z * list Z :=
  match fuel with
  | O => (num, out)
  | S fuel' =>
      if 0 <? Z.land num (Z.lnot 0x7F)
      then encode_loop2 fuel' (Z.shiftr num 7) (out ++ [Z.lor (Z.land num 0xFF) 0x80])
      else (num, out)
  end.

(** [encode]: the two loops run at most once per bit of [num] together,
    so the binary length of [num] is fuel enough for each. *)
Definition encode (num : Z) : Buffer.t :=
  let fuel := S (Z.to_nat (Z.log2 num)) in
  let '(num1, out1) := encode_loop1 fuel num [] in
  let '(num2, out2) := encode_loop2 fuel num1 out1 in
  Buffer.from_array (out2 ++ [Z.lor num2 0]).

End Varint.

(** ** Dates *)

(** A [Date]: its time value in milliseconds since the epoch, or the
    invalid date, whose time value is [NaN]. *)
Inductive Date : Type :=
| DateOf (ms : Z)
| InvalidDate.

(** [new Date(ms)]: time values beyond 8.64e15 ms give the invalid date. *)
Definition newDate (ms : Z) : Date :=
  if Z.abs ms <=? 8640000000000000 then DateOf ms else InvalidDate.

(** ** [writer.ts] *)

Module Writer.

Record t : Type := mk { m_buffer : Buffer.t; m_readIndex : Z }.

(** [new Writer()] *)
Definition new : t := mk [] 0.

Definition buffer (w : t) : Buffer.t := m_buffer w.

Definition length (w : t) : Z := Buffer.length (m_buffer w).

(** [toString()] and the [blob] getter, with the default encoding. *)
Definition blob (w : t) : string := Buffer.toString_hex (buffer w).

(** What [write], [hash] and [hex] are handed: a peer, given by the
    buffer its [buffer] getter returns, a [Buffer], a string, or any other
    value, given by its [JSON.stringify] text. *)
Inductive payload : Type :=
| PWriter (peer : Buffer.t)
| PReader (peer : Buffer.t)
| PBuffer (b : Buffer.t)
| PString (s : string)
| POther (json : string).

(** [write(payload)], with the default encoding ['hex']. *)
Definition write (p : payload) : M t bool :=
  let write_ (buffer : Buffer.t) : M t bool :=
    fun w => (Return true, mk (Buffer.concat (m_buffer w) buffer) (m_readIndex w)) in
  match p with
  | PWriter peer => write_ peer
  | PReader peer => write_ peer
  | PBuffer b => write_ b
  | PString s => write_ (Buffer.from_hex s)
  | POther json => write_ (Buffer.from_utf8 json)
  end.

(** [clear()] *)
Definition clear : M t unit := fun w => (Return tt, mk [] (m_readIndex w)).

(** [hash(hash)] *)
Definition hash (h : payload) : M t bool :=
  match h with
  | PBuffer b => if Buffer.length b =? 32 then write h else ret false
  | PString s => if Z.of_nat (String.length s) =? 64 then write h else ret false
  | _ => ret false
  end.

(** [hex(hex)] *)
Definition hex (h : payload) : M t bool :=
  match h with
  | PBuffer _ => write h
  | PString _ => write h
  | _ => ret false
  end.

Definition bytes_table : list Z := [1; 2; 4; 8; 16; 32; 64; 128; 256; 512; 1024].

(** The [for (const byte of bytes)] loop of [determineBits]. *)
Fixpoint determineBits_loop (bytes : list Z) (value : Z) : completion Z :=
  match bytes with
  | [] => Throw (RangeError "value is out of range")
  | byte :: rest =>
      let check :=
        if -1 <? value
        then 2 ^ (byte * 8) - 1
        else Z.abs (2 ^ (byte * 8 - 1) - 1) in
      if value <=? check
      then Return (byte * 8)
      else determineBits_loop rest value
  end.

Definition determineBits (value : Z) : completion Z :=
  determineBits_loop bytes_table value.

(** [writeUIntBE(value, bytes)] *)
Definition writeUIntBE (value bytes : Z) : Buffer.t :=
  let hex := JS.padStart (BigInteger.toString16 value) (bytes * 2) in
  Buffer.from_hex hex.

(** [for (const slice of buffer) { tempBuffer[position] = slice; position -= 1 }] *)
Definition reverse_into (buffer tempBuffer : Buffer.t) (position : Z) : Buffer.t * Z :=
  fold_left
    (fun '(tempBuffer, position) slice => (Buffer.set tempBuffer position slice, position - 1))
    buffer (tempBuffer, position).

(** [writeUIntLE(value, bytes)] *)
Definition writeUIntLE (value bytes : Z) : completion Buffer.t :=
  let hex := JS.padStart (BigInteger.toString16 value) (bytes * 2) in
  let buffer := Buffer.from_hex hex in
  match Buffer.alloc bytes with
  | Throw e => Throw e
  | Return tempBuffer => Return (fst (reverse_into buffer tempBuffer (bytes - 1)))
  end.

(** [!bits] for an optional number. *)
Definition falsy (bits : option Z) : bool :=
  match bits with
  | None => true
  | Some b => b =? 0
  end.

(** [uint_t(value, bits?, be)] *)
Definition uint_t (value : Z) (bits : option Z) (be : bool) : M t bool :=
  if value <? 0
  then throw (RangeError "cannot store signed value in unsigned type")
  else
    let* bits :=
      match bits with
      | Some b => if falsy bits then lift (determineBits value) else ret b
      | None => lift (determineBits value)
      end in
    if negb (Z.rem bits 8 =? 0)
    then throw (Error "bits must be a multiple of 8")
    else
      let bytes := Z.quot bits 8 in
      let* buf := lift (if be then Return (writeUIntBE value bytes)
                        else writeUIntLE value bytes) in
      write (PBuffer buf);;
      ret true.

Definition uint8_t (value : Z) : M t bool := uint_t value (Some 8) false.
Definition uint16_t (value : Z) (be : bool) : M t bool := uint_t value (Some 16) be.
Definition uint32_t (value : Z) (be : bool) : M t bool := uint_t value (Some 32) be.
Definition uint64_t (value : Z) (be : bool) : M t bool := uint_t value (Some 64) be.
Definition uint128_t (value : Z) (be : bool) : M t bool := uint_t value (Some 128) be.
Definition uint256_t (value : Z) (be : bool) : M t bool := uint_t value (Some 256) be.
Definition uint512_t (value : Z) (be : bool) : M t bool := uint_t value (Some 512) be.

(** [time_t(value, be)] *)
Definition time_t (value : Date) (be : bool) : M t unit :=
  match value with
  | InvalidDate => throw (RangeError "NaN cannot be converted to a BigInt")
  | DateOf ms =>
      let num := ms / 1000 in
      let hex := JS.padStart (BigInteger.toString16 num) 16 in
      let* buffer := lift (if be then Buffer.swap64 (Buffer.from_hex hex)
                           else Return (Buffer.from_hex hex)) in
      write (PBuffer buffer);;
      ret tt
  end.

(** [for (let i = 0; i < byteCount; i++) this.uint8_t((tempValue >> i * 8) & 0xFF)],
    with [count] iterations left. *)
Fixpoint levin_bytes (count : nat) (i tempValue : Z) : M t unit :=
  match count with
  | O => ret tt
  | S count' =>
      uint8_t (JS.band (JS.sar tempValue (i * 8)) 0xFF);;
      levin_bytes count' (i + 1) tempValue
  end.

(** [varint(value, levin)].  [value.toJSNumber()] is the identity on the
    values that pass the range test and are above [-2^53]. *)
Definition varint (value : Z) (levin : bool) : M t bool :=
  if negb levin
  then
    write (PBuffer (Varint.encode value));;
    ret true
  else
    if 1073741823 <? value
    then throw (RangeError "value out of range")
    else
      let tempValue := JS.shl value 2 in
      let '(tempValue, byteCount) :=
        if value <=? 63 then (JS.bor tempValue 0, 1%nat)
        else if value <=? 16383 then (JS.bor tempValue 1, 2%nat)
        else (JS.bor tempValue 2, 4%nat) in
      levin_bytes byteCount 0 tempValue;;
      ret true.

(** [int_t(value, bits?, be)].  [value.toJSNumber()] rounds only values
    that are far outside the range of every width written here. *)
Definition int_t (value : Z) (bits : option Z) (be : bool) : M t bool :=
  let given := match bits with Some b => b | None => 0 end in
  if negb (falsy bits) && negb (Z.rem given 8 =? 0)
  then throw (Error "bits must be a multiple of 8")
  else
    let* bits := if falsy bits then lift (determineBits value) else ret given in
    let bytes := Z.quot bits 8 in
    let* buf := lift (Buffer.alloc bytes) in
    let* written :=
      if bytes =? 1 then
        let* buf := lift (Buffer.writeIntLE 1 buf value 0) in ret (Some buf)
      else if bytes =? 2 then
        let* buf := lift (if be then Buffer.writeIntBE 2 buf value 0
                          else Buffer.writeIntLE 2 buf value 0) in ret (Some buf)
      else if bytes =? 4 then
        let* buf := lift (if be then Buffer.writeIntBE 4 buf value 0
                          else Buffer.writeIntLE 4 buf value 0) in ret (Some buf)
      else ret None in
    match written with
    | None => ret false
    | Some buf => write (PBuffer buf);; ret true
    end.

Definition int8_t (value : Z) : M t bool := int_t value (Some 8) false.
Definition int16_t (value : Z) (be : bool) : M t bool := int_t value (Some 16) be.
Definition int32_t (value : Z) (be : bool) : M t bool := int_t value (Some 32) be.

(** The [while (okToSend)] loop of [_read(size)]; [pushed] collects what
    was handed to [this.push], a chunk or [null] ([None]) for the end of the
    stream.  An iteration that does not stop has pushed a slice that is not
    empty and moved [m_readIndex] by its length; [fuel] counts the
    iterations left. *)
Fixpoint _read_loop (fuel : nat) (size : Z) (pushed : list (option Buffer.t))
  : M t (list (option Buffer.t)) :=
  match fuel with
  | O => throw (Error "out of fuel")
  | S fuel' =>
      let* w := get in
      let slice :=
        if length w <? m_readIndex w + size
        then Buffer.slice_from (m_buffer w) (m_readIndex w)
        else Buffer.slice (m_buffer w) (m_readIndex w) (m_readIndex w + size) in
      let okToSend := 0 <? Buffer.length slice in
      let pushed := pushed ++ [if okToSend then Some slice else None] in
      (fun w => (Return tt, mk (m_buffer w) (m_readIndex w + Buffer.length slice)));;
      if okToSend then _read_loop fuel' size pushed else ret pushed
  end.

(** [_read(size)], with what it pushed. *)
Definition _read (size : Z) : M t (list (option Buffer.t)) :=
  let* w := get in
  _read_loop (S (List.length (m_buffer w))) size [].

End Writer.

(** ** [reader.ts] *)

Module Reader.

Record t : Type := mk { m_current_offset : Z; m_buffer : Buffer.t }.

(** What the constructor and [append] are handed. *)
Inductive blob : Type :=
| BReader (r : t)
| BWriter (w : Writer.t)
| BBuffer (b : Buffer.t)
| BUint8Array (a : list Z)
| BString (s : string)
| BOther.

(** [new Reader(blob)], with the default encoding ['hex'], by the cursor
    and the contents of the buffer of the new reader.  A [Reader] argument
    is returned as it is.  For a writer and for a buffer the reader keeps
    the very buffer of its argument, which the contents cannot tell from a
    copy: [Shared.new] below is the constructor on buffers with an
    identity. *)
Definition new (b : blob) : completion t :=
  match b with
  | BReader r => Return r
  | BWriter w => Return (mk 0 (Writer.buffer w))
  | BBuffer b => Return (mk 0 b)
  | BString s => Return (mk 0 (Buffer.from_hex s))
  | _ => Throw (Error "Unknown data type")
  end.

Definition buffer (r : t) : Buffer.t := m_buffer r.

Definition length (r : t) : Z := Buffer.length (m_buffer r).

Definition offset (r : t) : Z := m_current_offset r.

(** The [unreadBytes] getter. *)
Definition unreadBytes (r : t) : Z :=
  let unreadBytes := length r - offset r in
  if 0 <=? unreadBytes then unreadBytes else 0.

(** The [unreadBuffer] getter. *)
Definition unreadBuffer (r : t) : Buffer.t := Buffer.slice_from (m_buffer r) (offset r).

(** [this.m_current_offset += count] *)
Definition advance (count : Z) : M t unit :=
  fun r => (Return tt, mk (m_current_offset r + count) (m_buffer r)).

(** [this.m_current_offset = offset] *)
Definition set_offset (offset : Z) : M t unit :=
  fun r => (Return tt, mk offset (m_buffer r)).

(** The [buffer] that [append] takes from its argument, or the exception
    of its last branch. *)
Definition to_buffer (b : blob) : completion Buffer.t :=
  match b with
  | BReader r => Return (buffer r)
  | BWriter w => Return (Writer.buffer w)
  | BBuffer b => Return b
  | BUint8Array a => Return (Buffer.from_array a)
  | BString s =>
      if Nat.eqb (Nat.modulo (String.length s) 2) 0
      then Return (Buffer.from_hex s)
      else Throw (Error "Unknown data type")
  | BOther => Throw (Error "Unknown data type")
  end.

(** [append(blob)], with the default encoding ['hex']. *)
Definition append (b : blob) : M t unit :=
  let* buffer := lift (to_buffer b) in
  fun r => (Return tt, mk (m_current_offset r) (Buffer.concat (m_buffer r) buffer)).

(** [bytes(count = 1)] *)
Definition bytes (count : Z) : M t Buffer.t :=
  let* r := get in
  let start := offset r in
  advance count;;
  let* r := get in
  ret (Buffer.slice (m_buffer r) start (offset r)).

(** [compact(offset?)] *)
Definition compact (offset_ : option Z) : M t unit :=
  fun r =>
    let b := match offset_ with
             | None => Buffer.slice_from (buffer r) (offset r)
             | Some o => Buffer.slice_from (buffer r) o
             end in
    (Return tt, mk 0 b).

(** [hash(length = 32)], with the default encoding ['hex']. *)
Definition hash (length : Z) : M t string :=
  let* r := get in
  let start := offset r in
  advance length;;
  let* r := get in
  ret (Buffer.toString_hex (Buffer.slice (m_buffer r) start (m_current_offset r))).

(** [hex(count = 1)], with the default encoding ['hex']. *)
Definition hex (count : Z) : M t string :=
  let* r := get in
  let start := offset r in
  advance count;;
  let* r := get in
  ret (Buffer.toString_hex (Buffer.slice (m_buffer r) start (offset r))).

(** [int_t(bits, be)] *)
Definition int_t (bits : Z) (be : bool) : M t Z :=
  if negb (Z.rem bits 8 =? 0)
  then throw (Error "bits must be a multiple of 8")
  else
    let bytes := Z.quot bits 8 in
    let* r := get in
    if unreadBytes r <? bytes
    then throw (Error "Not enough bytes remaining in the buffer")
    else
      let start := offset r in
      advance bytes;;
      let* r := get in
      if bytes =? 1 then lift (Buffer.readInt8 (m_buffer r) start)
      else if bytes =? 2 then
        lift (if be then Buffer.readIntBE 2 (m_buffer r) start
              else Buffer.readIntLE 2 (m_buffer r) start)
      else if bytes =? 4 then
        lift (if be then Buffer.readIntBE 4 (m_buffer r) start
              else Buffer.readIntLE 4 (m_buffer r) start)
      else throw (Error "cannot read int64_t").

Definition int8_t : M t Z := int_t 8 false.
Definition int16_t (be : bool) : M t Z := int_t 16 be.
Definition int32_t (be : bool) : M t Z := int_t 32 be.

(** [reset(offset = 0)] *)
Definition reset (offset : Z) : M t unit := set_offset offset.

(** [skip(count = 1)] *)
Definition skip (count : Z) : M t unit := advance count.

(** [time_t(be)].  With [be] the eight octets are swapped in place, in
    the memory the slice shares with the buffer of the reader, which is left
    with these octets reversed.  [toJSNumber] rounds an epoch above [2^53]
    only, and such an epoch is beyond the range of [Date] with or without
    the rounding. *)
Definition time_t (be : bool) : M t Date :=
  let* r := get in
  let start := offset r in
  let* b := bytes 8 in
  let* buffer :=
    if be
    then
      let* swapped := lift (Buffer.swap64 b) in
      (fun r => (Return tt, mk (m_current_offset r) (Buffer.write_back (m_buffer r) start swapped)));;
      ret swapped
    else ret b in
  let* epoch := lift (BigInteger.parse16 (Buffer.toString_hex buffer)) in
  ret (newDate (epoch * 1000)).

(** The helper [readUIntBE(buffer, bytes, offset)]. *)
Definition readUIntBE (buffer : Buffer.t) (bytes offset : Z) : completion Z :=
  if Buffer.length buffer <? offset + bytes
  then Throw (RangeError "Out of bounds")
  else
    let slice := Buffer.slice buffer offset (offset + bytes) in
    BigInteger.parse16 (Buffer.toString_hex slice).

(** The helper [readUIntLE(buffer, bytes, offset)]. *)
Definition readUIntLE (buffer : Buffer.t) (bytes offset : Z) : completion Z :=
  if Buffer.length buffer <? offset + bytes
  then Throw (RangeError "Out of bounds")
  else
    let buf := Buffer.slice buffer offset (offset + bytes) in
    match Buffer.alloc bytes with
    | Throw e => Throw e
    | Return tempBuffer =>
        let tempBuffer := fst (Writer.reverse_into buf tempBuffer (bytes - 1)) in
        BigInteger.parse16 (Buffer.toString_hex tempBuffer)
    end.

(** [uint_t(bits, be)] *)
Definition uint_t (bits : Z) (be : bool) : M t Z :=
  if negb (Z.rem bits 8 =? 0)
  then throw (Error "bits must be a multiple of 8")
  else
    let bytes := Z.quot bits 8 in
    let* r := get in
    if unreadBytes r <? bytes
    then throw (Error "Not enough bytes remaining in the buffer")
    else
      let start := offset r in
      advance bytes;;
      let* r := get in
      lift (if be then readUIntBE (buffer r) bytes start
            else readUIntLE (buffer r) bytes start).

Definition uint8_t : M t Z := uint_t 8 false.
Definition uint16_t (be : bool) : M t Z := uint_t 16 be.
Definition uint32_t (be : bool) : M t Z := uint_t 32 be.
Definition uint64_t (be : bool) : M t Z := uint_t 64 be.
Definition uint128_t (be : bool) : M t Z := uint_t 128 be.
Definition uint256_t (be : bool) : M t Z := uint_t 256 be.
Definition uint512_t (be : bool) : M t Z := uint_t 512 be.

(** The [do ... while (true)] loop of [varint] without [levin].  An
    iteration that does not return has read an octet at the cursor and
    moved the cursor by one, so the loop ends, by a [return] or by the
    exception of [readUInt8], within one iteration per unread octet plus
    one; [fuel] counts the iterations left. *)
Fixpoint varint_loop (fuel : nat) (start : Z) (peek : bool) : M t Z :=
  match fuel with
  | O => throw (Error "out of fuel")
  | S fuel' =>
      let* r := get in
      let* b := lift (Buffer.readUInt8 (m_buffer r) (m_current_offset r)) in
      if b <? 128
      then
        advance 1;;
        let* r := get in
        let tmp := Buffer.slice (m_buffer r) start (offset r) in
        (if peek then set_offset start else ret tt);;
        lift (Varint.decode tmp)
      else
        advance 1;;
        varint_loop fuel' start peek
  end.

(** [for (let i = 1; i <= bytesLeft; ++i) value = value.or(this.uint8_t().shiftLeft(i * 8))],
    with [count] iterations left. *)
Fixpoint levin_loop (count : nat) (i value : Z) : M t Z :=
  match count with
  | O => ret value
  | S count' =>
      let* b := uint8_t in
      let nv := Z.shiftl b (i * 8) in
      levin_loop count' (i + 1) (Z.lor value nv)
  end.

(** [varint(peek, levin)] *)
Definition varint (peek levin : bool) : M t Z :=
  let* r := get in
  let start := m_current_offset r in
  if negb levin
  then varint_loop (S (List.length (m_buffer r))) start peek
  else
    let* value := uint8_t in
    let sizeMask := JS.band value 0x03 in
    let bytesLeft :=
      if sizeMask =? 0 then 0%nat
      else if sizeMask =? 1 then 1%nat
      else if sizeMask =? 2 then 3%nat
      else if sizeMask =? 3 then 7%nat
      else 0%nat in
    let* value := levin_loop bytesLeft 1 value in
    ret (Z.shiftr value 2).

End Reader.

(** ** Buffers as objects

    [Writer] and [Reader] above are given by the contents of their buffer,
    which is all that one object can observe of it.  Two objects can hold
    the same [Buffer]: the constructor of the reader stores the buffer of
    the writer or the buffer it is handed, not a copy, and [time_t(true)]
    swaps octets of that buffer in place.  Here a buffer is an object of a
    heap, and the objects hold references. *)

Module Shared.

(** The heap of the buffers: a [Buffer] is its index. *)
Definition heap : Type := list Buffer.t.

Definition ref : Type := nat.

(** The contents of a buffer of the heap. *)
Definition contents (b : ref) (h : heap) : Buffer.t := default [] (h !! b).

Record writer : Type := mk_writer { w_buffer : ref; w_readIndex : Z }.

Record reader : Type := mk_reader { r_current_offset : Z; r_buffer : ref }.

Inductive blob : Type :=
| BReader (r : reader)
| BWriter (w : writer)
| BBuffer (b : ref)
| BString (s : string)
| BOther.

(** [Buffer.from(text, 'hex')]: a buffer of its own. *)
Definition from_hex (s : string) : M heap ref :=
  fun h => (Return (List.length h), h ++ [Buffer.from_hex s]).

(** [new Reader(blob)], with the default encoding ['hex']: a reader is
    returned as it is; the new reader keeps the buffer of a writer, and a
    buffer it is handed, as they are; a text is decoded into a new
    buffer. *)
Definition new (b : blob) : M heap reader :=
  match b with
  | BReader r => ret r
  | BWriter w => ret (mk_reader 0 (w_buffer w))
  | BBuffer b => ret (mk_reader 0 b)
  | BString s => let* b := from_hex s in ret (mk_reader 0 b)
  | BOther => throw (Error "Unknown data type")
  end.

(** A method of [Reader] that keeps the buffer of the reader (every read;
    [append] and [compact] assign a new one), on a reader of the heap: the
    method runs on the contents of the buffer, and what it leaves of them
    is what it left in the buffer. *)
Definition in_place {A : Type} (op : M Reader.t A) : M (reader * heap) A :=
  fun '(r, h) =>
    let '(c, r') := op (Reader.mk (r_current_offset r) (contents (r_buffer r) h)) in
    (c, (mk_reader (Reader.m_current_offset r') (r_buffer r),
         <[r_buffer r := Reader.m_buffer r']> h)).

(** [time_t(be)] of a reader of the heap. *)
Definition time_t (be : bool) : M (reader * heap) Date := in_place (Reader.time_t be).

End Shared.

(** * Vocabulary of the statements *)

Definition octet (x : Z) : Prop := 0 <= x < 256.

Definition digit16 (d : Z) : Prop := 0 <= d < 16.

(** The text of a list of base-16 digits. *)
Definition chars (ds : list Z) : string := string_of_list_ascii (map Buffer.hexchar ds).

(** The value of a list of base-16 digits, most significant first, on top
    of an accumulated value. *)
Definition value16_from (acc : Z) (ds : list Z) : Z := fold_left (fun a d => a * 16 + d) ds acc.

Definition value16 (ds : list Z) : Z := value16_from 0 ds.

(** The octets a list of digits spells, two digits per octet. *)
Fixpoint octets_of_digits (ds : list Z) : list Z :=
  match ds with
  | a :: b :: rest => (a * 16 + b) :: octets_of_digits rest
  | _ => []
  end.

(** The octets [Writer.uint_t] appends for a value that fits the width. *)
Definition uint_octets (x b : Z) (be : bool) : Buffer.t :=
  if be then Writer.writeUIntBE x (b / 8) else reverse (Writer.writeUIntBE x (b / 8)).

(** The widths [determineBits] chooses from. *)
Definition widths : list Z := map (fun byte => byte * 8) Writer.bytes_table.

Definition fits (value b : Z) : Prop := value <= 2 ^ b - 1.

(** Every character of the text is a hexadecimal digit. *)
Fixpoint all_hex (s : string) : bool :=
  match s with
  | EmptyString => true
  | String c rest =>
      match Buffer.unhex c with
      | Some _ => all_hex rest
      | None => false
      end
  end.

(** The octets the loop of the Levin writer appends: octet [i], [i + 1],
    ... of [tempValue], [count] of them. *)
Fixpoint levin_octets (count : nat) (i tempValue : Z) : list Z :=
  match count with
  | O => []
  | S count' => JS.band (JS.sar tempValue (i * 8)) 0xFF :: levin_octets count' (i + 1) tempValue
  end.

(** What the loop of the Levin reader accumulates from the octets [l], the
    first of them shifted to octet [i]. *)
Fixpoint levin_combine (i value : Z) (l : list Z) : Z :=
  match l with
  | [] => value
  | b :: l' => levin_combine (i + 1) (Z.lor value (Z.shiftl b (i * 8))) l'
  end.

(** The three size classes of the Levin writer: the number of octets, the
    two low bits and the bound on the shifted value. *)
Definition levin_class (count : nat) (k bound : Z) : Prop :=
  (count = 1%nat /\ k = 0 /\ bound = 2 ^ 8)
  \/ (count = 2%nat /\ k = 1 /\ bound = 2 ^ 16)
  \/ (count = 4%nat /\ k = 2 /\ bound = 2 ^ 32).

(** The loop shared by the two loops of [encode]: while [cond num], emit
    the low seven bits of [num] with the continuation bit and divide [num]
    by 128. *)
Fixpoint emit_loop (cond : Z -> bool) (fuel : nat) (num : Z) (out : list Z) : Z * list Z :=
  match fuel with
  | O => (num, out)
  | S fuel' =>
      if cond num
      then emit_loop cond fuel' (num / 128) (out ++ [128 + num mod 128])
      else (num, out)
  end.

(** A continuation octet of a varint. *)
Definition continuation (b : Z) : Prop := 128 <= b < 256.

(** The octets [Writer.int_t] appends for a value in the signed range. *)
Definition int_octets (v b : Z) (be : bool) : Buffer.t :=
  if be then reverse (Buffer.le_octets (Z.to_nat (b / 8)) v)
  else Buffer.le_octets (Z.to_nat (b / 8)) v.

(** The lower-case form of a hexadecimal character. *)
Definition lower_hex_char (c : ascii) : ascii :=
  let n := Z.of_N (N_of_ascii c) in
  if (65 <=? n) && (n <=? 70) then ascii_of_N (N_of_ascii c + 32) else c.

Fixpoint lower_hex (s : string) : string :=
  match s with
  | EmptyString => EmptyString
  | String c rest => String (lower_hex_char c) (lower_hex rest)
  end.

(** The writer [w'] holds the data of [w] and, after it, [suffix]; the
    read index of the stream is the same. *)
Definition appended (w w' : Writer.t) (suffix : Buffer.t) : Prop :=
  w' = Writer.mk (Writer.m_buffer w ++ suffix) (Writer.m_readIndex w).

(** An operation of the writer that, whatever it returns or throws, leaves
    the writer with what it held and something appended. *)
Definition grows {A : Type} (op : M Writer.t A) : Prop :=
  forall w, exists suffix, appended w (snd (op w)) suffix.

(** * Properties *)

(** ** Octets and digits *)

(** Linear arithmetic with division and remainder by constants. *)
Ltac divlia := Z.to_euclidean_division_equations; lia.

(** A property of every number below [n], decided by running it. *)
Lemma forall_below (P : Z -> bool) (n : nat) :
  forallb P (map Z.of_nat (seq 0 n)) = true ->
  forall m, 0 <= m < Z.of_nat n -> P m = true.
Proof.
  intros H m Hm.
  rewrite forallb_forall in H. apply H.
  apply in_map_iff. exists (Z.to_nat m). split; [lia|].
  apply in_seq. lia.
Qed.

Lemma stringify_hexchar d : digit16 d -> BigInteger.stringify d = Buffer.hexchar d.
Proof.
  intros Hd.
  apply (forall_below
           (fun d => if ascii_dec (BigInteger.stringify d) (Buffer.hexchar d) then true else false)
           16) in Hd; [|reflexivity].
  destruct (ascii_dec _ _); [assumption|discriminate].
Qed.

Lemma digit_of_hexchar d :
  digit16 d -> BigInteger.digit_of_char (Buffer.hexchar d) = Some d.
Proof.
  intros Hd.
  apply (forall_below
           (fun d => match BigInteger.digit_of_char (Buffer.hexchar d) with
                     | Some e => e =? d
                     | None => false
                     end) 16) in Hd; [|reflexivity].
  destruct (BigInteger.digit_of_char _); [|discriminate].
  f_equal. lia.
Qed.

Lemma unhex_hexchar d : digit16 d -> Buffer.unhex (Buffer.hexchar d) = Some d.
Proof.
  intros Hd.
  apply (forall_below
           (fun d => match Buffer.unhex (Buffer.hexchar d) with
                     | Some e => e =? d
                     | None => false
                     end) 16) in Hd; [|reflexivity].
  destruct (Buffer.unhex _); [|discriminate].
  f_equal. lia.
Qed.

Lemma unhex_digit c d : Buffer.unhex c = Some d -> digit16 d.
Proof.
  unfold Buffer.unhex, digit16.
  generalize (Z.of_N (N_of_ascii c)). intros n. cbv zeta.
  repeat (let E := fresh "E" in
          destruct (_ && _) eqn:E;
          [apply andb_true_iff in E; intros [= <-]; lia|clear E]).
  intros [=].
Qed.

Lemma lor_shiftl_4 x y : digit16 x -> digit16 y -> Z.lor (Z.shiftl x 4) y = x * 16 + y.
Proof.
  intros Hx Hy.
  apply (forall_below
           (fun x => forallb (fun y => Z.lor (Z.shiftl x 4) y =? x * 16 + y)
                       (map Z.of_nat (seq 0 16))) 16) in Hx; [|reflexivity].
  apply (forall_below _ 16 Hx) in Hy. apply Z.eqb_eq in Hy. exact Hy.
Qed.

Lemma octet_split x : octet x -> digit16 (x / 16) /\ digit16 (x mod 16).
Proof. unfold octet, digit16. intros. divlia. Qed.

Lemma land_255_octet x : octet x -> Z.land x 255 = x.
Proof.
  intros Hx. change 255 with (Z.ones 8). rewrite Z.land_ones by lia.
  apply Z.mod_small. exact Hx.
Qed.

(** ** Texts of digits *)

Lemma list_pair_ind {A} (P : list A -> Prop) :
  P [] -> (forall a, P [a]) -> (forall a b l, P l -> P (a :: b :: l)) -> forall l, P l.
Proof.
  intros Hnil Hone Hstep.
  assert (H : forall l, P l /\ forall a, P (a :: l)).
  { induction l as [|b l [IH1 IH2]]; split; auto. }
  intros l. apply H.
Qed.

Lemma length_string_of_list_ascii l : String.length (string_of_list_ascii l) = List.length l.
Proof. induction l; simpl; congruence. Qed.

Lemma string_of_list_ascii_app a b :
  string_of_list_ascii (a ++ b) = String.append (string_of_list_ascii a) (string_of_list_ascii b).
Proof. induction a; simpl; congruence. Qed.

Lemma length_chars ds : String.length (chars ds) = List.length ds.
Proof. unfold chars. rewrite length_string_of_list_ascii. apply length_map. Qed.

Lemma chars_app a b : chars (a ++ b) = String.append (chars a) (chars b).
Proof. unfold chars. rewrite map_app. apply string_of_list_ascii_app. Qed.

Lemma chars_zeros n : chars (replicate n 0) = string_of_list_ascii (replicate n "0"%char).
Proof. unfold chars. induction n; simpl; [reflexivity|]. f_equal. exact IHn. Qed.

Lemma padStart_chars ds target :
  JS.padStart (chars ds) target
  = chars (replicate (Z.to_nat (target - Z.of_nat (List.length ds))) 0 ++ ds).
Proof.
  unfold JS.padStart. rewrite chars_app, chars_zeros, length_chars. reflexivity.
Qed.

Lemma value16_from_app acc a b :
  value16_from acc (a ++ b) = value16_from (value16_from acc a) b.
Proof. apply fold_left_app. Qed.

Lemma value16_from_zeros acc n : value16_from acc (replicate n 0) = acc * 16 ^ Z.of_nat n.
Proof.
  revert acc. induction n as [|n IH]; intros acc.
  - simpl. lia.
  - cbn [replicate value16_from fold_left]. fold (value16_from (acc * 16 + 0) (replicate n 0)).
    rewrite IH, Nat2Z.inj_succ, Z.pow_succ_r by lia. lia.
Qed.

Lemma value16_pad n ds : value16 (replicate n 0 ++ ds) = value16 ds.
Proof.
  unfold value16. rewrite value16_from_app, value16_from_zeros. reflexivity.
Qed.

(** ** [BigInteger.toString(16)] writes the digits of the number *)

Lemma toBase_loop_spec fuel :
  forall left out,
    0 <= left < 2 ^ (Z.of_nat fuel + 4) ->
    exists pre,
      BigInteger.toBase_loop fuel left out = pre ++ out
      /\ Forall digit16 pre
      /\ value16 pre = left
      /\ forall k : nat, left < 16 ^ Z.of_nat (S k) -> (List.length pre <= S k)%nat.
Proof.
  induction fuel as [|fuel IH]; intros left out Hleft.
  - exists [left]. change (2 ^ (Z.of_nat 0 + 4)) with 16 in Hleft.
    split; [reflexivity|]. split; [constructor; [exact Hleft|constructor]|].
    split; [unfold value16; simpl; lia|]. intros k _. simpl. lia.
  - cbn [BigInteger.toBase_loop]. destruct (16 <=? left) eqn:E.
    + apply Z.leb_le in E.
      destruct (IH (left / 16) (left mod 16 :: out)) as (pre & Heq & Hdig & Hval & Hlen).
      { rewrite Nat2Z.inj_succ in Hleft.
        replace (Z.succ (Z.of_nat fuel) + 4) with (Z.of_nat fuel + 4 + 1) in Hleft by lia.
        rewrite Z.pow_add_r in Hleft by lia. change (2 ^ 1) with 2 in Hleft.
        assert (0 < 2 ^ (Z.of_nat fuel + 4)) by (apply Z.pow_pos_nonneg; lia).
        divlia. }
      exists (pre ++ [left mod 16]). split; [|split; [|split]].
      * rewrite Heq, <- app_assoc. reflexivity.
      * apply Forall_app. split; [exact Hdig|]. constructor; [|constructor].
        unfold digit16. divlia.
      * unfold value16 in *. rewrite value16_from_app, Hval. simpl. divlia.
      * intros k Hk. rewrite length_app. simpl.
        destruct k as [|k].
        { change (16 ^ Z.of_nat 1) with 16 in Hk. lia. }
        specialize (Hlen k).
        assert (left / 16 < 16 ^ Z.of_nat (S k)).
        { rewrite (Nat2Z.inj_succ (S k)), Z.pow_succ_r in Hk by lia. divlia. }
        lia.
    + apply Z.leb_gt in E. exists [left].
      split; [reflexivity|]. split; [constructor; [unfold digit16; lia|constructor]|].
      split; [unfold value16; simpl; lia|]. intros k _. simpl. lia.
Qed.

Lemma log2_fuel n : 0 <= n -> n < 2 ^ (Z.of_nat (Z.to_nat (Z.log2 n)) + 4).
Proof.
  intros Hn. destruct (Z.eq_dec n 0) as [->|Hne].
  - simpl. lia.
  - pose proof (Z.log2_spec n ltac:(lia)) as [_ Hlt].
    pose proof (Z.log2_nonneg n).
    rewrite Z2Nat.id by lia.
    eapply Z.lt_le_trans; [exact Hlt|].
    apply Z.pow_le_mono_r; lia.
Qed.

(** The digits of [toBase]: base-16 digits of the right value, and no more
    of them than the magnitude of the number asks for. *)
Lemma toBase_digits n :
  0 <= n ->
  Forall digit16 (BigInteger.toBase n)
  /\ value16 (BigInteger.toBase n) = n
  /\ forall k : nat, n < 16 ^ Z.of_nat (S k) -> (List.length (BigInteger.toBase n) <= S k)%nat.
Proof.
  intros Hn. unfold BigInteger.toBase.
  destruct (toBase_loop_spec (Z.to_nat (Z.log2 n)) n []) as (pre & Heq & Hdig & Hval & Hlen).
  { split; [exact Hn|apply log2_fuel; exact Hn]. }
  rewrite Heq, app_nil_r. auto.
Qed.

Lemma map_stringify ds : Forall digit16 ds -> map BigInteger.stringify ds = map Buffer.hexchar ds.
Proof.
  induction 1 as [|d ds Hd _ IH]; simpl; [reflexivity|].
  rewrite IH, (stringify_hexchar d Hd). reflexivity.
Qed.

Lemma toString16_nonneg n : 0 <= n -> BigInteger.toString16 n = chars (BigInteger.toBase n).
Proof.
  intros Hn. unfold BigInteger.toString16.
  destruct (n <? 0) eqn:E; [apply Z.ltb_lt in E; lia|].
  unfold chars. rewrite map_stringify; [reflexivity|].
  apply toBase_digits. exact Hn.
Qed.

(** ** [Buffer.from(text, 'hex')] on a text of digits *)

Lemma from_hex_chars ds : Forall digit16 ds -> Buffer.from_hex (chars ds) = octets_of_digits ds.
Proof.
  induction ds as [|a|a b ds IH] using list_pair_ind; intros Hds; try reflexivity.
  inversion Hds as [|? ? Ha Hds']; subst. inversion Hds' as [|? ? Hb Hds'']; subst.
  change (chars (a :: b :: ds))
    with (String (Buffer.hexchar a) (String (Buffer.hexchar b) (chars ds))).
  cbn [Buffer.from_hex]. rewrite (unhex_hexchar a Ha), (unhex_hexchar b Hb).
  rewrite (lor_shiftl_4 a b Ha Hb), (IH Hds''). reflexivity.
Qed.

Lemma octets_of_digits_octets ds : Forall digit16 ds -> Forall octet (octets_of_digits ds).
Proof.
  induction ds as [|a|a b ds IH] using list_pair_ind; intros Hds; try constructor.
  - inversion Hds as [|? ? Ha Hds']; subst. inversion Hds' as [|? ? Hb Hds'']; subst.
    unfold octet, digit16 in *. lia.
  - apply IH. inversion Hds as [|? ? Ha Hds']; subst. inversion Hds'; subst. assumption.
Qed.

Lemma length_octets_of_digits ds : List.length (octets_of_digits ds) = Nat.div2 (List.length ds).
Proof.
  induction ds as [|a|a b ds IH] using list_pair_ind; try reflexivity.
  simpl. rewrite IH. reflexivity.
Qed.

Lemma be_value_octets_of_digits ds :
  Nat.even (List.length ds) = true ->
  forall acc, fold_left (fun a x => a * 256 + x) (octets_of_digits ds) acc = value16_from acc ds.
Proof.
  induction ds as [|a|a b ds IH] using list_pair_ind; intros Heven acc.
  - reflexivity.
  - discriminate.
  - cbn [octets_of_digits fold_left value16_from]. fold (value16_from ((acc * 16 + a) * 16 + b) ds).
    rewrite IH by exact Heven. f_equal. lia.
Qed.

(** [writeUIntBE]: the big-endian octets of the value. *)
Lemma writeUIntBE_spec x n :
  0 < n -> 0 <= x < 256 ^ n ->
  Buffer.length (Writer.writeUIntBE x n) = n
  /\ Forall octet (Writer.writeUIntBE x n)
  /\ Buffer.be_value (Writer.writeUIntBE x n) = x.
Proof.
  intros Hn Hx. unfold Writer.writeUIntBE.
  destruct (toBase_digits x) as (Hdig & Hval & Hlen); [lia|].
  rewrite toString16_nonneg, padStart_chars by lia.
  set (ds := replicate _ 0 ++ BigInteger.toBase x).
  assert (Hds : Forall digit16 ds).
  { apply Forall_app. split; [|exact Hdig].
    apply Forall_replicate. unfold digit16. lia. }
  assert (Hdslen : List.length ds = (2 * Z.to_nat n)%nat).
  { unfold ds. rewrite length_app, length_replicate.
    specialize (Hlen (2 * Z.to_nat n - 1)%nat).
    assert (Hpow : 256 ^ n = 16 ^ Z.of_nat (S (2 * Z.to_nat n - 1))).
    { change 256 with (16 ^ 2). rewrite <- Z.pow_mul_r by lia. f_equal. lia. }
    rewrite Hpow in Hx. specialize (Hlen ltac:(lia)). lia. }
  rewrite from_hex_chars by exact Hds.
  split; [|split].
  - unfold Buffer.length. rewrite length_octets_of_digits, Hdslen, Nat.div2_double. lia.
  - apply octets_of_digits_octets. exact Hds.
  - unfold Buffer.be_value. rewrite be_value_octets_of_digits.
    + fold (value16 ds). unfold ds. rewrite value16_pad. exact Hval.
    + rewrite Hdslen. apply Nat.even_spec. exists (Z.to_nat n). reflexivity.
Qed.

(** ** [BigInteger(text, 16)] on the hex dump of a buffer *)

Lemma parse_digits_toString_hex l :
  Forall octet l ->
  forall acc, BigInteger.parse_digits (Buffer.toString_hex l) acc
              = Some (fold_left (fun a x => a * 256 + x) l acc).
Proof.
  induction 1 as [|x l Hx _ IH]; intros acc; [reflexivity|].
  destruct (octet_split x Hx) as [Hhi Hlo].
  cbn [Buffer.toString_hex BigInteger.parse_digits fold_left].
  rewrite (digit_of_hexchar _ Hhi), (digit_of_hexchar _ Hlo).
  destruct Hhi as [? Hhi]. destruct Hlo as [? Hlo].
  apply Z.ltb_lt in Hhi, Hlo. rewrite Hhi, Hlo, IH.
  do 2 f_equal. divlia.
Qed.

Lemma parse16_digit c rest :
  BigInteger.digit_of_char c <> None ->
  BigInteger.parse16 (String c rest)
  = match BigInteger.parse_digits (String c rest) 0 with
    | Some v => Return v
    | None => Throw (Error "not a valid digit")
    end.
Proof.
  intros Hc. unfold BigInteger.parse16.
  destruct c as [[] [] [] [] [] [] [] []]; try reflexivity.
  exfalso. apply Hc. reflexivity.
Qed.

Lemma parse16_toString_hex l :
  Forall octet l -> BigInteger.parse16 (Buffer.toString_hex l) = Return (Buffer.be_value l).
Proof.
  intros Hl. destruct l as [|x l]; [reflexivity|].
  inversion Hl as [|? ? Hx _]; subst.
  cbn [Buffer.toString_hex]. rewrite parse16_digit.
  - change (String (Buffer.hexchar (x / 16)) (String (Buffer.hexchar (x mod 16)) (Buffer.toString_hex l)))
      with (Buffer.toString_hex (x :: l)).
    rewrite parse_digits_toString_hex by exact Hl. reflexivity.
  - rewrite digit_of_hexchar; [discriminate|]. apply octet_split. exact Hx.
Qed.

(** The hex dump of a buffer decodes to the buffer. *)
Lemma from_hex_toString_hex l : Forall octet l -> Buffer.from_hex (Buffer.toString_hex l) = l.
Proof.
  induction 1 as [|x l Hx _ IH]; [reflexivity|].
  destruct (octet_split x Hx) as [Hhi Hlo].
  cbn [Buffer.toString_hex Buffer.from_hex].
  rewrite (unhex_hexchar _ Hhi), (unhex_hexchar _ Hlo), (lor_shiftl_4 _ _ Hhi Hlo), IH.
  f_equal. divlia.
Qed.

(** ** The byte-reversal loop *)

Lemma reverse_into_spec l :
  Forall octet l ->
  forall T, (List.length l <= List.length T)%nat ->
  Writer.reverse_into l T (Z.of_nat (List.length l) - 1)
  = (reverse l ++ drop (List.length l) T, -1).
Proof.
  induction 1 as [|a l Ha _ IH]; intros T HT.
  - simpl. rewrite drop_0. reflexivity.
  - unfold Writer.reverse_into in *. cbn [fold_left].
    simpl List.length in *.
    assert (Hset : Buffer.set T (Z.of_nat (S (List.length l)) - 1) a = <[List.length l := a]> T).
    { unfold Buffer.set, Buffer.length.
      destruct (_ && _) eqn:E.
      - rewrite land_255_octet by exact Ha. f_equal. lia.
      - apply andb_false_iff in E. destruct E as [E|E]; [apply Z.leb_gt in E|apply Z.ltb_ge in E]; lia. }
    rewrite Hset.
    replace (Z.of_nat (S (List.length l)) - 1 - 1) with (Z.of_nat (List.length l) - 1) by lia.
    rewrite IH by (rewrite length_insert; lia).
    f_equal. rewrite reverse_cons, <- app_assoc. f_equal.
    rewrite drop_insert_ge by lia. rewrite Nat.sub_diag.
    destruct (lookup_lt_is_Some_2 T (List.length l)) as [y Hy]; [lia|].
    rewrite (drop_S _ _ _ Hy). reflexivity.
Qed.

Lemma pow_256 n : 0 <= n -> 256 ^ n = 2 ^ (8 * n).
Proof. intros Hn. change 256 with (2 ^ 8). rewrite <- Z.pow_mul_r by lia. reflexivity. Qed.

(** [writeUIntLE]: the octets of [writeUIntBE], in the reverse order. *)
Lemma writeUIntLE_spec x n :
  0 < n -> 0 <= x < 256 ^ n ->
  Writer.writeUIntLE x n = Return (reverse (Writer.writeUIntBE x n)).
Proof.
  intros Hn Hx. destruct (writeUIntBE_spec x n Hn Hx) as (Hlen & Hoct & _).
  unfold Writer.writeUIntLE, Buffer.alloc.
  destruct (n <? 0) eqn:E; [apply Z.ltb_lt in E; lia|].
  fold (Writer.writeUIntBE x n).
  unfold Buffer.length in Hlen.
  replace (n - 1) with (Z.of_nat (List.length (Writer.writeUIntBE x n)) - 1) by lia.
  rewrite reverse_into_spec.
  - cbn [fst]. rewrite drop_ge by (rewrite length_replicate; lia).
    rewrite app_nil_r. reflexivity.
  - exact Hoct.
  - rewrite length_replicate. lia.
Qed.

(** ** [slice] inside the buffer *)

Lemma slice_inside b start count :
  0 <= start -> 0 <= count -> start + count <= Buffer.length b ->
  Buffer.slice b start (start + count) = take (Z.to_nat count) (drop (Z.to_nat start) b).
Proof.
  intros Hs Hc Hb. unfold Buffer.slice, Buffer.clamp.
  destruct (start <? 0) eqn:E1; [apply Z.ltb_lt in E1; lia|].
  destruct (start + count <? 0) eqn:E2; [apply Z.ltb_lt in E2; lia|].
  rewrite !Z.min_l by lia. f_equal. lia.
Qed.

Lemma slice_all b : Buffer.slice b 0 (Buffer.length b) = b.
Proof.
  replace (Buffer.slice b 0 (Buffer.length b))
    with (Buffer.slice b 0 (0 + Buffer.length b)) by (f_equal; lia).
  rewrite slice_inside by (unfold Buffer.length; lia).
  unfold Buffer.length. rewrite Nat2Z.id, drop_0. apply firstn_all.
Qed.

(** ** The unsigned writer and the unsigned reader *)

Lemma multiple_of_8 b : 0 < b -> b mod 8 = 0 -> Z.rem b 8 = 0 /\ Z.quot b 8 = b / 8 /\ 0 < b / 8 /\ 8 * (b / 8) = b.
Proof.
  intros Hb Hm. rewrite Z.rem_mod_nonneg, Z.quot_div_nonneg by lia.
  split; [exact Hm|]. split; [reflexivity|]. divlia.
Qed.

Lemma uint_octets_spec x b be :
  0 < b -> b mod 8 = 0 -> 0 <= x <= 2 ^ b - 1 ->
  Buffer.length (uint_octets x b be) = b / 8
  /\ Forall octet (uint_octets x b be)
  /\ Buffer.be_value (if be then uint_octets x b be else reverse (uint_octets x b be)) = x.
Proof.
  intros Hb Hm Hx. destruct (multiple_of_8 b Hb Hm) as (_ & _ & Hn & H8).
  destruct (writeUIntBE_spec x (b / 8) Hn) as (Hlen & Hoct & Hval).
  { rewrite pow_256, H8 by lia. lia. }
  unfold uint_octets. destruct be.
  - auto.
  - split; [|split].
    + unfold Buffer.length in *. rewrite length_reverse. exact Hlen.
    + apply Forall_reverse. exact Hoct.
    + rewrite reverse_involutive. exact Hval.
Qed.

Lemma Writer_uint_t_spec x b be w :
  0 < b -> b mod 8 = 0 -> 0 <= x <= 2 ^ b - 1 ->
  Writer.uint_t x (Some b) be w
  = (Return true, Writer.mk (Writer.m_buffer w ++ uint_octets x b be) (Writer.m_readIndex w)).
Proof.
  intros Hb Hm Hx. destruct (multiple_of_8 b Hb Hm) as (Hrem & Hquot & Hn & H8).
  unfold Writer.uint_t.
  destruct (x <? 0) eqn:E; [apply Z.ltb_lt in E; lia|].
  unfold Writer.falsy. destruct (b =? 0) eqn:E0; [apply Z.eqb_eq in E0; lia|].
  unfold bind at 1. unfold ret at 1. rewrite Hrem, Hquot. cbn [Z.eqb negb].
  unfold uint_octets. destruct be.
  - reflexivity.
  - unfold bind, lift. rewrite writeUIntLE_spec; [reflexivity|exact Hn|].
    rewrite pow_256, H8 by lia. lia.
Qed.

Lemma unreadBytes_inside r :
  Reader.offset r <= Reader.length r -> Reader.unreadBytes r = Reader.length r - Reader.offset r.
Proof.
  intros H. unfold Reader.unreadBytes.
  destruct (0 <=? _) eqn:E; [reflexivity|]. apply Z.leb_gt in E. lia.
Qed.

(** [Reader.uint_t] with enough octets after the cursor. *)
Lemma Reader_uint_t_spec b be r :
  0 < b -> b mod 8 = 0 ->
  0 <= Reader.offset r -> Reader.offset r + b / 8 <= Reader.length r ->
  let s := take (Z.to_nat (b / 8)) (drop (Z.to_nat (Reader.offset r)) (Reader.m_buffer r)) in
  Forall octet s ->
  Reader.uint_t b be r
  = (Return (Buffer.be_value (if be then s else reverse s)),
     Reader.mk (Reader.offset r + b / 8) (Reader.m_buffer r)).
Proof.
  intros Hb Hm Ho Hlen s Hs. destruct (multiple_of_8 b Hb Hm) as (Hrem & Hquot & Hn & H8).
  unfold Reader.uint_t. rewrite Hrem, Hquot. cbn [Z.eqb negb].
  unfold bind at 1. unfold get at 1.
  rewrite unreadBytes_inside by lia.
  destruct (_ <? _) eqn:E; [apply Z.ltb_lt in E; lia|]. clear E.
  unfold bind, Reader.advance, get, lift. cbn [Reader.buffer Reader.m_buffer].
  unfold Reader.length in Hlen. unfold Reader.offset in *.
  destruct be.
  - unfold Reader.readUIntBE.
    destruct (_ <? _) eqn:E; [apply Z.ltb_lt in E; lia|]. clear E.
    rewrite slice_inside by lia. fold s.
    rewrite parse16_toString_hex by exact Hs. reflexivity.
  - unfold Reader.readUIntLE.
    destruct (_ <? _) eqn:E; [apply Z.ltb_lt in E; lia|]. clear E.
    rewrite slice_inside by lia. fold s.
    unfold Buffer.alloc. destruct (_ <? 0) eqn:E; [apply Z.ltb_lt in E; lia|]. clear E.
    assert (Hslen : List.length s = Z.to_nat (b / 8)).
    { unfold s. rewrite length_take, length_drop. unfold Buffer.length in Hlen. lia. }
    replace (b / 8 - 1) with (Z.of_nat (List.length s) - 1) by lia.
    rewrite reverse_into_spec; [|exact Hs|rewrite length_replicate; lia].
    cbn [fst]. rewrite drop_ge by (rewrite length_replicate; lia).
    rewrite app_nil_r, parse16_toString_hex by (apply Forall_reverse; exact Hs).
    reflexivity.
Qed.

(** ** Round trip of the unsigned integers *)

(** Writing [x] after any written content and reading it back at the
    position where it was written, whatever follows it in the buffer. *)
Lemma uint_t_write_read_at (w : Writer.t) (post : Buffer.t) (b : Z) (be : bool) (x : Z) :
  0 < b -> b mod 8 = 0 -> 0 <= x <= 2 ^ b - 1 ->
  exists w',
    Writer.uint_t x (Some b) be w = (Return true, w')
    /\ Writer.length w' = Writer.length w + b / 8
    /\ Reader.uint_t b be (Reader.mk (Writer.length w) (Writer.buffer w' ++ post))
       = (Return x, Reader.mk (Writer.length w + b / 8) (Writer.buffer w' ++ post)).
Proof.
  intros Hb Hm Hx.
  destruct (uint_octets_spec x b be Hb Hm Hx) as (Hlen & Hoct & Hval).
  destruct (multiple_of_8 b Hb Hm) as (_ & _ & Hn & _).
  eexists. split; [apply Writer_uint_t_spec; assumption|].
  unfold Writer.length, Writer.buffer, Buffer.length in *. cbn [Writer.m_buffer].
  split; [rewrite length_app; lia|].
  assert (Hs : take (Z.to_nat (b / 8))
                 (drop (Z.to_nat (Z.of_nat (List.length (Writer.m_buffer w))))
                    ((Writer.m_buffer w ++ uint_octets x b be) ++ post))
               = uint_octets x b be).
  { rewrite Nat2Z.id, <- app_assoc, drop_app_length.
    rewrite take_app_length'; [reflexivity|lia]. }
  rewrite Reader_uint_t_spec; cbn [Reader.offset Reader.m_current_offset Reader.m_buffer];
    try assumption; try lia.
  - rewrite Hs. destruct be; rewrite Hval; reflexivity.
  - unfold Reader.length, Buffer.length. cbn [Reader.m_buffer]. rewrite !length_app. lia.
  - rewrite Hs. exact Hoct.
Qed.

(** The round trip of the unsigned integers at any place of a buffer. *)
Theorem uint_t_roundtrip_at (w : Writer.t) (post : Buffer.t) (b : Z) (be : bool) (x : Z) :
  0 < b -> b mod 8 = 0 -> 0 <= x <= 2 ^ b - 1 ->
  exists w',
    Writer.uint_t x (Some b) be w = (Return true, w')
    /\ Writer.length w' = Writer.length w + b / 8
    /\ Reader.uint_t b be (Reader.mk (Writer.length w) (Writer.buffer w' ++ post))
       = (Return x, Reader.mk (Writer.length w + b / 8) (Writer.buffer w' ++ post)).
Proof. exact (uint_t_write_read_at w post b be x). Qed.

Lemma uint_t_roundtrip_at_witness :
  exists w',
    Writer.uint_t 258 (Some 16) false (Writer.mk [7] 0) = (Return true, w')
    /\ Writer.length w' = Writer.length (Writer.mk [7] 0) + 16 / 8
    /\ Reader.uint_t 16 false
         (Reader.mk (Writer.length (Writer.mk [7] 0)) (Writer.buffer w' ++ [9]))
       = (Return 258,
          Reader.mk (Writer.length (Writer.mk [7] 0) + 16 / 8) (Writer.buffer w' ++ [9])).
Proof.
  apply (uint_t_roundtrip_at (Writer.mk [7] 0) [9] 16 false 258); [lia|reflexivity|lia].
Defined.

(** C1. For every width [b] that is a positive multiple of 8 up to 8192,
    both endianness flags and every [x] with [0 <= x <= 2^b - 1]: a fresh
    [Writer] accepts [uint_t(x, b, be)], and a [Reader] built from that
    writer (or, as the tests do, from its hex [blob]) returns exactly [x] from
    [uint_t(b, be)], leaving the cursor after the [b/8] octets read. *)
Theorem uint_t_write_read_roundtrip (b : Z) (be : bool) (x : Z) :
  0 < b -> b mod 8 = 0 -> b <= 8192 -> 0 <= x <= 2 ^ b - 1 ->
  exists w r,
    Writer.uint_t x (Some b) be Writer.new = (Return true, w)
    /\ Reader.new (Reader.BWriter w) = Return r
    /\ Reader.new (Reader.BString (Writer.blob w)) = Return r
    /\ Reader.uint_t b be r = (Return x, Reader.mk (b / 8) (Reader.buffer r)).
Proof.
  intros Hb Hm _ Hx.
  destruct (uint_t_write_read_at Writer.new [] b be x Hb Hm Hx) as (w & Hw & _ & Hr).
  exists w, (Reader.mk 0 (Writer.buffer w)). split; [exact Hw|]. split; [reflexivity|].
  rewrite app_nil_r in Hr. split; [|exact Hr].
  rewrite Writer_uint_t_spec in Hw by assumption. injection Hw as <-.
  unfold Reader.new, Writer.blob, Writer.buffer. cbn [Writer.m_buffer Writer.new app].
  rewrite from_hex_toString_hex; [reflexivity|].
  apply uint_octets_spec; assumption.
Qed.

Lemma uint_t_write_read_roundtrip_witness :
  exists w r,
    Writer.uint_t (2 ^ 64 - 1) (Some 64) true Writer.new = (Return true, w)
    /\ Reader.new (Reader.BWriter w) = Return r
    /\ Reader.new (Reader.BString (Writer.blob w)) = Return r
    /\ Reader.uint_t 64 true r = (Return (2 ^ 64 - 1), Reader.mk (64 / 8) (Reader.buffer r)).
Proof.
  apply (uint_t_write_read_roundtrip 64 true (2 ^ 64 - 1)); [lia|reflexivity|lia|lia].
Defined.

(** ** Auto-sizing *)

Lemma determineBits_loop_spec value (bytes : list Z) :
  0 <= value -> StronglySorted Z.lt bytes ->
  match Writer.determineBits_loop bytes value with
  | Return b =>
      In b (map (fun byte => byte * 8) bytes) /\ fits value b
      /\ forall b', In b' (map (fun byte => byte * 8) bytes) -> b' < b -> ~ fits value b'
  | Throw e =>
      e = RangeError "value is out of range"
      /\ forall b', In b' (map (fun byte => byte * 8) bytes) -> ~ fits value b'
  end.
Proof.
  intros Hv. induction 1 as [|byte rest Hsorted IH Hall]; cbn [Writer.determineBits_loop map].
  - split; [reflexivity|]. intros b' [].
  - destruct (-1 <? value) eqn:E; [clear E|apply Z.ltb_ge in E; lia].
    destruct (value <=? 2 ^ (byte * 8) - 1) eqn:Hfit.
    + apply Z.leb_le in Hfit. split; [left; reflexivity|]. split; [exact Hfit|].
      intros b' [<-|Hin] Hlt; [lia|].
      apply in_map_iff in Hin. destruct Hin as (y & <- & Hy).
      rewrite List.Forall_forall in Hall. specialize (Hall y Hy). lia.
    + apply Z.leb_gt in Hfit.
      destruct (Writer.determineBits_loop rest value) as [b|e].
      * destruct IH as (Hin & Hb & Hmin). split; [right; exact Hin|]. split; [exact Hb|].
        intros b' [<-|Hin'] Hlt; [unfold fits; lia|]. apply Hmin; assumption.
      * destruct IH as (-> & Hnone). split; [reflexivity|].
        intros b' [<-|Hin']; [unfold fits; lia|]. apply Hnone; assumption.
Qed.

Lemma bytes_table_sorted : StronglySorted Z.lt Writer.bytes_table.
Proof. unfold Writer.bytes_table. repeat (constructor; [|repeat constructor; lia]). constructor. Qed.

(** C6. Without an explicit width the unsigned writer takes the width from
    [determineBits]: the smallest of 8, 16, 32, ..., 8192 bits whose largest
    unsigned value [2^b - 1] is not below the value (255 gives 8 bits, 256
    gives 16, [2^32 - 1] gives 32 and [2^32] gives 64), and a [RangeError],
    with nothing written, when none of the widths fits. *)
Theorem uint_t_auto_sizing (value : Z) (be : bool) (w : Writer.t) :
  0 <= value ->
  widths = [8; 16; 32; 64; 128; 256; 512; 1024; 2048; 4096; 8192]
  /\ (forall b, Writer.determineBits value = Return b <->
                In b widths /\ fits value b
                /\ forall b', In b' widths -> b' < b -> ~ fits value b')
  /\ ((forall b, In b widths -> ~ fits value b) <->
      Writer.determineBits value = Throw (RangeError "value is out of range"))
  /\ Writer.uint_t value None be w
     = match Writer.determineBits value with
       | Return b => Writer.uint_t value (Some b) be w
       | Throw e => (Throw e, w)
       end
  /\ Writer.determineBits 255 = Return 8
  /\ Writer.determineBits 256 = Return 16
  /\ Writer.determineBits (2 ^ 32 - 1) = Return 32
  /\ Writer.determineBits (2 ^ 32) = Return 64.
Proof.
  intros Hv. split; [reflexivity|].
  pose proof (determineBits_loop_spec value Writer.bytes_table Hv bytes_table_sorted) as Hspec.
  fold (Writer.determineBits value) in Hspec. fold widths in Hspec.
  split; [|split; [|split]].
  - intros b. split.
    + intros Heq. rewrite Heq in Hspec. exact Hspec.
    + intros (Hin & Hfit & Hmin).
      destruct (Writer.determineBits value) as [b0|e].
      * destruct Hspec as (Hin0 & Hfit0 & Hmin0).
        destruct (Z.lt_trichotomy b0 b) as [Hlt|[->|Hgt]]; [|reflexivity|].
        -- exfalso. exact (Hmin b0 Hin0 Hlt Hfit0).
        -- exfalso. exact (Hmin0 b Hin Hgt Hfit).
      * destruct Hspec as (_ & Hnone). exfalso. exact (Hnone b Hin Hfit).
  - split.
    + intros Hnone. destruct (Writer.determineBits value) as [b0|e].
      * destruct Hspec as (Hin0 & Hfit0 & _). exfalso. exact (Hnone b0 Hin0 Hfit0).
      * destruct Hspec as (-> & _). reflexivity.
    + intros Heq. rewrite Heq in Hspec. apply Hspec.
  - unfold Writer.uint_t.
    destruct (value <? 0) eqn:E; [apply Z.ltb_lt in E; lia|]. clear E.
    unfold bind at 1. unfold lift at 1.
    destruct (Writer.determineBits value) as [b0|e]; [|reflexivity].
    destruct Hspec as (Hin0 & _).
    assert (Hb0 : (b0 =? 0) = false).
    { apply Z.eqb_neq. intros ->. unfold widths, Writer.bytes_table in Hin0. simpl in Hin0.
      intuition discriminate. }
    unfold Writer.falsy. rewrite Hb0. reflexivity.
  - repeat split; reflexivity.
Qed.

Lemma uint_t_auto_sizing_witness :
  Writer.uint_t 256 None false Writer.new = Writer.uint_t 256 (Some 16) false Writer.new
  /\ Writer.blob (snd (Writer.uint_t 256 None false Writer.new)) = "0001"%string.
Proof.
  destruct (uint_t_auto_sizing 256 false Writer.new ltac:(lia)) as (_ & _ & _ & H & _).
  split; [exact H|reflexivity].
Defined.

(** ** Timestamps *)

Lemma swap64_8 b : List.length b = 8%nat -> Buffer.swap64 b = Return (reverse b).
Proof.
  intros Hb. unfold Buffer.swap64, Buffer.length. rewrite Hb.
  change (Z.of_nat 8 mod 8 =? 0) with true. cbv iota.
  change (Nat.div 8 8) with 1%nat. cbn [Buffer.swap_groups].
  rewrite app_nil_r, take_ge by lia. reflexivity.
Qed.

(** C7, as the code has it. For every date from the epoch on (and within
    the range of [Date]) and both flags, [time_t(d, be)] appends the eight
    octets that [uint_t] appends for [floor(ms / 1000)] at 64 bits with the
    opposite flag: without [be] the octets are in big-endian order, with
    [be] they are reversed. *)
Theorem time_t_is_uint64_with_opposite_flag (ms : Z) (be : bool) (w : Writer.t) :
  0 <= ms <= 8640000000000000 ->
  Writer.uint_t (ms / 1000) (Some 64) (negb be) w
  = (Return true, snd (Writer.time_t (DateOf ms) be w))
  /\ fst (Writer.time_t (DateOf ms) be w) = Return tt
  /\ Writer.length (snd (Writer.time_t (DateOf ms) be w)) = Writer.length w + 8.
Proof.
  intros Hms.
  assert (Hx : 0 <= ms / 1000 <= 2 ^ 64 - 1) by (change (2 ^ 64) with 18446744073709551616; divlia).
  destruct (writeUIntBE_spec (ms / 1000) 8 ltac:(lia)) as (Hlen & Hoct & _).
  { change (256 ^ 8) with (2 ^ 64). lia. }
  rewrite Writer_uint_t_spec by (try reflexivity; lia).
  unfold Writer.time_t, uint_octets. change (64 / 8) with 8.
  fold (Writer.writeUIntBE (ms / 1000) 8) in *.
  unfold Buffer.length in Hlen.
  assert (Hlen' : List.length (Writer.writeUIntBE (ms / 1000) 8) = 8%nat) by lia.
  unfold Writer.writeUIntBE in *. change (8 * 2) with 16 in *.
  destruct be; cbn [negb].
  - unfold bind, lift. rewrite (swap64_8 _ Hlen'). cbn [Writer.write Writer.m_buffer fst snd ret].
    unfold Writer.length, Buffer.length, Buffer.concat. cbn [Writer.m_buffer].
    rewrite length_app, length_reverse. repeat split; lia.
  - unfold bind, lift. cbn [Writer.write Writer.m_buffer fst snd ret].
    unfold Writer.length, Buffer.length, Buffer.concat. cbn [Writer.m_buffer].
    rewrite length_app. repeat split; lia.
Qed.

Lemma time_t_is_uint64_with_opposite_flag_witness :
  Writer.uint_t (1577282076000 / 1000) (Some 64) (negb false) Writer.new
  = (Return true, snd (Writer.time_t (DateOf 1577282076000) false Writer.new))
  /\ fst (Writer.time_t (DateOf 1577282076000) false Writer.new) = Return tt
  /\ Writer.length (snd (Writer.time_t (DateOf 1577282076000) false Writer.new))
     = Writer.length Writer.new + 8.
Proof.
  apply (time_t_is_uint64_with_opposite_flag 1577282076000 false Writer.new). lia.
Defined.

(** C7, as stated, fails: for the date of the tests, 1577282076 seconds
    after the epoch, [time_t(d)] and [uint_t(1577282076, 64)] with the same
    (default) flag append different octets, "000000005e036a1c" and
    "1c6a035e00000000". *)
Lemma time_t_differs_from_uint64_with_same_flag :
  Writer.blob (snd (Writer.time_t (DateOf 1577282076000) false Writer.new))
    = "000000005e036a1c"%string
  /\ Writer.blob (snd (Writer.uint_t (1577282076000 / 1000) (Some 64) false Writer.new))
    = "1c6a035e00000000"%string
  /\ snd (Writer.time_t (DateOf 1577282076000) false Writer.new)
     <> snd (Writer.uint_t (1577282076000 / 1000) (Some 64) false Writer.new).
Proof.
  split; [reflexivity|]. split; [reflexivity|]. vm_compute. discriminate.
Qed.

(** ** Hashes *)

Lemma string_pair_ind (P : string -> Prop) :
  P EmptyString -> (forall a, P (String a EmptyString)) ->
  (forall a b s, P s -> P (String a (String b s))) -> forall s, P s.
Proof.
  intros Hnil Hone Hstep.
  assert (H : forall s, P s /\ forall a, P (String a s)).
  { induction s as [|b s [IH1 IH2]]; split; auto. }
  intros s. apply H.
Qed.

Lemma length_from_hex_le s :
  (List.length (Buffer.from_hex s) <= Nat.div2 (String.length s))%nat.
Proof.
  induction s as [|a|a b s IH] using string_pair_ind; try (simpl; apply Nat.le_0_l).
  cbn [Buffer.from_hex String.length Nat.div2].
  destruct (Buffer.unhex a), (Buffer.unhex b); simpl; try apply Nat.le_0_l.
  apply -> Nat.succ_le_mono. exact IH.
Qed.

Lemma length_from_hex_all s :
  all_hex s = true -> List.length (Buffer.from_hex s) = Nat.div2 (String.length s).
Proof.
  induction s as [|a|a b s IH] using string_pair_ind; try reflexivity.
  cbn [all_hex Buffer.from_hex String.length Nat.div2].
  destruct (Buffer.unhex a); [|discriminate]. destruct (Buffer.unhex b); [|discriminate].
  intros H. simpl. rewrite IH by exact H. reflexivity.
Qed.

Lemma length_from_hex_not_all s :
  Nat.even (String.length s) = true -> all_hex s = false ->
  (List.length (Buffer.from_hex s) < Nat.div2 (String.length s))%nat.
Proof.
  induction s as [|a|a b s IH] using string_pair_ind.
  - intros _ [=].
  - intros [=].
  - cbn [all_hex Buffer.from_hex String.length Nat.div2 Nat.even].
    intros Heven.
    destruct (Buffer.unhex a); [|intros _; apply Nat.lt_0_succ].
    destruct (Buffer.unhex b); [|intros _; apply Nat.lt_0_succ].
    intros H. simpl. specialize (IH Heven H). apply -> Nat.succ_lt_mono. exact IH.
Qed.

(** The guard of [hash] is on the length alone. A 32-octet buffer is
    appended as it is, and a 64-character text of hexadecimal digits appends
    its 32 octets. A buffer of another length, a text of another length and
    a value of another kind are refused: [hash] returns [false] and the
    writer is unchanged. A 64-character text with a character that is no
    hexadecimal digit passes the guard: [hash] returns [true] and appends
    the octets of the pairs before the first such character, fewer than
    32. *)
Theorem hash_strict_length (h : Writer.payload) (w : Writer.t) :
  match h with
  | Writer.PBuffer b =>
      if Buffer.length b =? 32
      then Writer.hash h w = (Return true, Writer.mk (Writer.m_buffer w ++ b) (Writer.m_readIndex w))
      else Writer.hash h w = (Return false, w)
  | Writer.PString s =>
      if Z.of_nat (String.length s) =? 64
      then Writer.hash h w
           = (Return true,
              Writer.mk (Writer.m_buffer w ++ Buffer.from_hex s) (Writer.m_readIndex w))
           /\ (all_hex s = true -> Buffer.length (Buffer.from_hex s) = 32)
           /\ (all_hex s = false -> Buffer.length (Buffer.from_hex s) < 32)
      else Writer.hash h w = (Return false, w)
  | _ => Writer.hash h w = (Return false, w)
  end.
Proof.
  destruct h as [peer|peer|b|s|json]; try reflexivity.
  - unfold Writer.hash. destruct (Buffer.length b =? 32); reflexivity.
  - unfold Writer.hash. destruct (Z.of_nat (String.length s) =? 64) eqn:E; [|reflexivity].
    apply Z.eqb_eq in E. assert (Hlen : String.length s = 64%nat) by lia.
    split; [reflexivity|]. unfold Buffer.length. split; intros Hhex.
    + rewrite length_from_hex_all, Hlen by exact Hhex. reflexivity.
    + pose proof (length_from_hex_not_all s) as H. rewrite Hlen in H.
      specialize (H eq_refl Hhex). change (Nat.div2 64) with 32%nat in H. lia.
Qed.

(** C9, on the code. A 64-character text that is not hexadecimal is
    neither a 32-octet value nor 64 hexadecimal digits, and the claim has
    [hash] return [false] for it and append nothing. The code tests the
    length of the text and nothing else: [hash] returns [true], and
    [Buffer.from(text, 'hex')] stops at the first pair that is not
    hexadecimal, so that one octet is appended where the method is to write
    a 32-byte hash. *)
Theorem hash_accepts_non_hex_text :
  let s := "abzzzzzzzzzzzzzzzzzzzzzzzzzzzzzzzzzzzzzzzzzzzzzzzzzzzzzzzzzzzzzz"%string in
  String.length s = 64%nat
  /\ all_hex s = false
  /\ Writer.hash (Writer.PString s) Writer.new = (Return true, Writer.mk [171] 0)
  /\ Writer.length (snd (Writer.hash (Writer.PString s) Writer.new)) = 1.
Proof. cbv zeta. repeat (split; [reflexivity|]). reflexivity. Qed.

(** ** [append] *)




(** ** Reads past the end of the buffer *)

(** C3, on the code. With one octet in the buffer, [bytes(2)], [hex(2)],
    [hash()] and [time_t()] do not throw: each returns what the one octet
    gives (a 1-octet buffer, the text "01", the date of second 1) and leaves
    the cursor at 2, 32 or 8, beyond the length 1 of the buffer. *)
Theorem reads_past_the_end_return_truncated_data :
  let r := Reader.mk 0 [1] in
  Reader.new (Reader.BString "01") = Return r
  /\ Reader.length r = 1
  /\ Reader.bytes 2 r = (Return [1], Reader.mk 2 [1])
  /\ Reader.hex 2 r = (Return "01"%string, Reader.mk 2 [1])
  /\ Reader.hash 32 r = (Return "01"%string, Reader.mk 32 [1])
  /\ Reader.time_t false r = (Return (DateOf 1000), Reader.mk 8 [1]).
Proof. cbv zeta. repeat (split; [reflexivity|]). reflexivity. Qed.

(** The integer readers do check: with fewer octets after the cursor than
    the width asks for, [uint_t] and [int_t] throw and leave the reader as
    it was. *)
Lemma int_readers_insufficient_data (bits : Z) (be : bool) (r : Reader.t) :
  0 < bits -> bits mod 8 = 0 -> Reader.unreadBytes r < bits / 8 ->
  Reader.uint_t bits be r = (Throw (Error "Not enough bytes remaining in the buffer"), r)
  /\ Reader.int_t bits be r = (Throw (Error "Not enough bytes remaining in the buffer"), r).
Proof.
  intros Hb Hm Hlt. destruct (multiple_of_8 bits Hb Hm) as (Hrem & Hquot & _ & _).
  apply Z.ltb_lt in Hlt.
  unfold Reader.uint_t, Reader.int_t. rewrite Hrem, Hquot. cbn [Z.eqb negb].
  unfold bind, get. rewrite Hlt. split; reflexivity.
Qed.

Lemma int_readers_insufficient_data_witness :
  Reader.uint_t 64 true (Reader.mk 1 [0; 1; 2])
  = (Throw (Error "Not enough bytes remaining in the buffer"), Reader.mk 1 [0; 1; 2])
  /\ Reader.int_t 64 true (Reader.mk 1 [0; 1; 2])
     = (Throw (Error "Not enough bytes remaining in the buffer"), Reader.mk 1 [0; 1; 2]).
Proof.
  apply (int_readers_insufficient_data 64 true (Reader.mk 1 [0; 1; 2]));
    [lia|reflexivity|vm_compute; reflexivity].
Defined.


(** ** The Levin writer and negative values *)

(** C5, on the code. [varint(-1, true)] passes the range test, which has
    an upper bound only: it returns [true] and appends the octet 0xfc. *)
Theorem levin_varint_writes_negative_value :
  Writer.varint (-1) true Writer.new = (Return true, Writer.mk [252] 0)
  /\ Writer.blob (snd (Writer.varint (-1) true Writer.new)) = "fc"%string
  /\ Reader.varint false true (Reader.mk 0 [252]) = (Return 63, Reader.mk 1 [252]).
Proof. repeat (split; [reflexivity|]). reflexivity. Qed.

(** Above the upper bound the Levin writer throws a [RangeError] and
    leaves the writer as it was. *)
Lemma levin_varint_above_range (value : Z) (w : Writer.t) :
  1073741823 < value ->
  Writer.varint value true w = (Throw (RangeError "value out of range"), w).
Proof.
  intros Hv. apply Z.ltb_lt in Hv. unfold Writer.varint. cbn [negb]. rewrite Hv. reflexivity.
Qed.

Lemma levin_varint_above_range_witness :
  Writer.varint 1073741824 true Writer.new = (Throw (RangeError "value out of range"), Writer.new).
Proof. apply (levin_varint_above_range 1073741824 Writer.new). lia. Defined.

(** ** Peeking a Levin varint *)

(** C8, on the code. With [levin] the flag [peek] is not read: on the
    one-octet buffer 00, [varint(true, true)] returns 0 and leaves the
    cursor at 1, not at 0 where it was. *)
Theorem levin_peek_advances_cursor :
  Reader.varint true true (Reader.mk 0 [0]) = (Return 0, Reader.mk 1 [0])
  /\ Reader.varint true true (Reader.mk 0 [253; 1]) = (Return 127, Reader.mk 2 [253; 1])
  /\ Reader.varint true false (Reader.mk 0 [0]) = (Return 0, Reader.mk 0 [0]).
Proof. repeat (split; [reflexivity|]). reflexivity. Qed.

(** ** Decoding a varint of 2^1024 and more *)

(** C2, on the code. The varint of [2^1024] has 147 octets; at the last
    one [decode] computes [4 * Math.pow(2, 1022)], which is [Infinity], and
    [result.add] throws on it: [decode(encode(2^1024))] is a [RangeError],
    not [2^1024]. *)
Theorem varint_decode_encode_overflow :
  List.length (Varint.encode (2 ^ 1024)) = 147%nat
  /\ Varint.decode (Varint.encode (2 ^ 1024))
     = Throw (RangeError "cannot be converted to a BigInt")
  /\ Varint.decode (Varint.encode (2 ^ 1024 - 1)) = Return (2 ^ 1024 - 1).
Proof. split; [|split]; vm_compute; reflexivity. Qed.

(** ** The Levin varint *)

Lemma lor_disjoint a b n : 0 <= n -> 0 <= a < 2 ^ n -> Z.lor a (Z.shiftl b n) = a + b * 2 ^ n.
Proof.
  intros Hn Ha.
  assert (Hland : Z.land a (Z.shiftl b n) = 0).
  { apply Z.bits_inj'. intros i Hi. rewrite Z.land_spec, Z.bits_0.
    destruct (Z.lt_ge_cases i n) as [Hlt|Hge].
    - rewrite Z.shiftl_spec_low by lia. apply andb_false_r.
    - rewrite <- (Z.mod_small a (2 ^ n)) by lia.
      rewrite Z.mod_pow2_bits_high by lia. reflexivity. }
  rewrite <- Z.lxor_lor by exact Hland.
  rewrite <- Z.add_nocarry_lxor by exact Hland.
  rewrite Z.shiftl_mul_pow2 by lia. reflexivity.
Qed.

Lemma ToInt32_small z : - 2 ^ 31 <= z < 2 ^ 31 -> JS.ToInt32 z = z.
Proof. unfold JS.ToInt32. change (2 ^ 31) with 2147483648. change (2 ^ 32) with 4294967296. intros. divlia. Qed.

Lemma ToInt32_range z : - 2 ^ 31 <= JS.ToInt32 z < 2 ^ 31.
Proof. unfold JS.ToInt32. change (2 ^ 31) with 2147483648. change (2 ^ 32) with 4294967296. divlia. Qed.

Lemma levin_temp x k :
  0 <= x < 2 ^ 30 -> 0 <= k < 4 ->
  JS.bor (JS.shl x 2) k = JS.ToInt32 (4 * x + k).
Proof.
  intros Hx Hk. unfold JS.bor, JS.shl.
  change (2 mod 32) with 2.
  rewrite (ToInt32_small x) by (change (2 ^ 31) with 2147483648; change (2 ^ 30) with 1073741824 in Hx; lia).
  rewrite (ToInt32_small k) by (change (2 ^ 31) with 2147483648; lia).
  rewrite (ToInt32_small (JS.ToInt32 _)) by apply ToInt32_range.
  rewrite Z.shiftl_mul_pow2 by lia. change (2 ^ 2) with 4.
  set (t0 := JS.ToInt32 (x * 4)).
  assert (Ht0 : t0 = Z.shiftl (t0 / 4) 2).
  { rewrite Z.shiftl_mul_pow2 by lia. change (2 ^ 2) with 4.
    unfold t0, JS.ToInt32. change (2 ^ 31) with 2147483648. change (2 ^ 32) with 4294967296. divlia. }
  rewrite Ht0, Z.lor_comm, lor_disjoint by (change (2 ^ 2) with 4; lia).
  rewrite Z.shiftl_mul_pow2 in Ht0 by lia. rewrite <- Ht0.
  unfold t0, JS.ToInt32. change (2 ^ 31) with 2147483648. change (2 ^ 32) with 4294967296.
  change (2 ^ 30) with 1073741824 in Hx. divlia.
Qed.

Lemma levin_octet t j :
  0 <= j < 4 ->
  JS.band (JS.sar (JS.ToInt32 t) (j * 8)) 0xFF = (t / 2 ^ (8 * j)) mod 256.
Proof.
  intros Hj. unfold JS.band, JS.sar.
  rewrite (ToInt32_small (JS.ToInt32 _)) by apply ToInt32_range.
  change (JS.ToInt32 255) with (Z.ones 8).
  assert (Hc : j = 0 \/ j = 1 \/ j = 2 \/ j = 3) by lia.
  destruct Hc as [->|[->|[->| ->]]];
  match goal with
  | |- context [(?a * 8) mod 32] =>
      let v := eval vm_compute in ((a * 8) mod 32) in change ((a * 8) mod 32) with v
  end;
  match goal with
  | |- context [8 * ?a] =>
      let v := eval vm_compute in (8 * a) in change (8 * a) with v
  end;
  rewrite Z.shiftr_div_pow2 by lia.
  all: rewrite Z.land_ones by lia.
  all: unfold JS.ToInt32.
  all: repeat match goal with |- context [2 ^ ?n] => let v := eval vm_compute in (2 ^ n) in change (2 ^ n) with v end.
  all: divlia.
Qed.

Lemma band_255_octet a : octet (JS.band a 0xFF).
Proof.
  unfold JS.band. change (JS.ToInt32 255) with (Z.ones 8). rewrite Z.land_ones by lia.
  unfold octet. change (2 ^ 8) with 256. divlia.
Qed.

Lemma Writer_uint8_t_spec v w :
  octet v ->
  Writer.uint8_t v w = (Return true, Writer.mk (Writer.m_buffer w ++ [v]) (Writer.m_readIndex w)).
Proof.
  intros Hv. unfold Writer.uint8_t.
  rewrite Writer_uint_t_spec by (try reflexivity; unfold octet in Hv; change (2 ^ 8) with 256; lia).
  destruct (writeUIntBE_spec v 1 ltac:(lia)) as (Hlen & _ & Hval).
  { change (256 ^ 1) with 256. exact Hv. }
  unfold uint_octets. change (8 / 8) with 1.
  destruct (Writer.writeUIntBE v 1) as [|y [|z l]];
    unfold Buffer.length in Hlen; simpl List.length in Hlen; try lia.
  assert (y = v) as -> by (unfold Buffer.be_value in Hval; simpl in Hval; lia).
  reflexivity.
Qed.

Lemma Reader_uint8_t_spec r v :
  0 <= Reader.offset r ->
  Reader.m_buffer r !! Z.to_nat (Reader.offset r) = Some v -> octet v ->
  Reader.uint8_t r = (Return v, Reader.mk (Reader.offset r + 1) (Reader.m_buffer r)).
Proof.
  intros Ho Hlook Hv. unfold Reader.uint8_t.
  pose proof (lookup_lt_Some _ _ _ Hlook) as Hlt.
  assert (Hs : take (Z.to_nat (8 / 8)) (drop (Z.to_nat (Reader.offset r)) (Reader.m_buffer r)) = [v]).
  { rewrite (drop_S _ _ _ Hlook). reflexivity. }
  rewrite Reader_uint_t_spec; try reflexivity; try lia.
  - rewrite Hs. unfold Buffer.be_value. simpl. reflexivity.
  - unfold Reader.length, Buffer.length. change (8 / 8) with 1. lia.
  - rewrite Hs. constructor; [exact Hv|constructor].
Qed.

Lemma levin_bytes_spec count :
  forall i t w,
    Writer.levin_bytes count i t w
    = (Return tt, Writer.mk (Writer.m_buffer w ++ levin_octets count i t) (Writer.m_readIndex w)).
Proof.
  induction count as [|count IH]; intros i t w.
  - simpl. rewrite app_nil_r. destruct w; reflexivity.
  - cbn [Writer.levin_bytes levin_octets]. unfold bind at 1.
    rewrite Writer_uint8_t_spec by apply band_255_octet.
    rewrite IH. cbn [Writer.m_buffer Writer.m_readIndex].
    rewrite <- app_assoc. reflexivity.
Qed.

Lemma levin_loop_spec l :
  Forall octet l ->
  forall i value o buf rest,
    0 <= o -> drop (Z.to_nat o) buf = l ++ rest ->
    Reader.levin_loop (List.length l) i value (Reader.mk o buf)
    = (Return (levin_combine i value l), Reader.mk (o + Z.of_nat (List.length l)) buf).
Proof.
  induction 1 as [|b l Hb _ IH]; intros i value o buf rest Ho Hdrop.
  - simpl. rewrite Z.add_0_r. reflexivity.
  - cbn [List.length Reader.levin_loop levin_combine]. unfold bind at 1.
    assert (Hlook : buf !! Z.to_nat o = Some b).
    { rewrite <- (Nat.add_0_r (Z.to_nat o)), <- lookup_drop, Hdrop. reflexivity. }
    rewrite (Reader_uint8_t_spec (Reader.mk o buf) b Ho Hlook Hb).
    cbn [Reader.offset Reader.m_current_offset Reader.m_buffer].
    assert (Hdrop' : drop (Z.to_nat (o + 1)) buf = l ++ rest).
    { replace (Z.to_nat (o + 1)) with (Z.to_nat o + 1)%nat by lia.
      rewrite <- drop_drop, Hdrop. reflexivity. }
    rewrite (IH _ _ (o + 1) buf rest); [|lia|exact Hdrop'].
    do 2 f_equal. lia.
Qed.

Lemma band_3 b : octet b -> JS.band b 0x03 = b mod 4.
Proof.
  intros Hb. unfold JS.band.
  rewrite (ToInt32_small b) by (unfold octet in Hb; change (2 ^ 31) with 2147483648; lia).
  change (JS.ToInt32 3) with (Z.ones 2). rewrite Z.land_ones by lia. reflexivity.
Qed.

Lemma octet_mod_256 z : octet (z mod 256).
Proof. unfold octet. divlia. Qed.

Lemma levin_read_back u count k bound post :
  levin_class count k bound -> 0 <= u < bound -> u mod 4 = k ->
  Reader.varint false true (Reader.mk 0 (levin_octets count 0 (JS.ToInt32 u) ++ post))
  = (Return (u / 4), Reader.mk (Z.of_nat count) (levin_octets count 0 (JS.ToInt32 u) ++ post)).
Proof.
  intros Hclass Hu Hk.
  assert (Hoct : forall j, 0 <= j < 4 ->
                 JS.band (JS.sar (JS.ToInt32 u) (j * 8)) 0xFF = (u / 2 ^ (8 * j)) mod 256)
    by (intros; apply levin_octet; assumption).
  destruct Hclass as [(-> & -> & ->)|[(-> & -> & ->)|(-> & -> & ->)]];
    cbn [levin_octets Z.add]; rewrite ?Hoct by lia;
    repeat match goal with
      | |- context [2 ^ ?n] => let v := eval vm_compute in (2 ^ n) in change (2 ^ n) with v
      end;
    repeat match type of Hu with
      | context [2 ^ ?n] => let v := eval vm_compute in (2 ^ n) in change (2 ^ n) with v in Hu
      end;
    set (buf := _ ++ post);
    unfold Reader.varint; unfold bind at 1; unfold get at 1; cbn [negb];
    unfold bind at 1;
    rewrite (Reader_uint8_t_spec (Reader.mk 0 buf) ((u / 1) mod 256))
      by (try reflexivity; try apply octet_mod_256; cbn; lia);
    rewrite band_3 by apply octet_mod_256;
    match goal with
    | |- context [(u / 1) mod 256 mod 4] =>
        replace ((u / 1) mod 256 mod 4) with (u mod 4) by divlia; rewrite Hk
    end;
    cbn [Z.eqb Pos.eqb Reader.offset Reader.m_current_offset Reader.m_buffer Z.add];
    unfold bind at 1.
  - cbn [Reader.levin_loop]. unfold ret. do 2 f_equal.
    rewrite Z.shiftr_div_pow2 by lia. change (2 ^ 2) with 4. divlia.
  - rewrite (levin_loop_spec [(u / 256) mod 256] ltac:(repeat constructor; apply octet_mod_256)
               1 _ 1 buf post ltac:(lia) eq_refl).
    unfold ret. cbn [levin_combine List.length Z.of_nat Z.add Z.mul Pos.mul Pos.add Pos.of_succ_nat Pos.succ].
    do 2 f_equal.
    rewrite (lor_disjoint _ _ 8) by (change (2 ^ 8) with 256; divlia).
    rewrite Z.shiftr_div_pow2 by lia. change (2 ^ 2) with 4. change (2 ^ 8) with 256. divlia.
  - rewrite (levin_loop_spec [(u / 256) mod 256; (u / 65536) mod 256; (u / 16777216) mod 256]
               ltac:(repeat constructor; apply octet_mod_256)
               1 _ 1 buf post ltac:(lia) eq_refl).
    unfold ret. cbn [levin_combine List.length Z.of_nat Z.add Z.mul Pos.mul Pos.add Pos.of_succ_nat Pos.succ].
    do 2 f_equal.
    rewrite (lor_disjoint _ _ 8) by (change (2 ^ 8) with 256; divlia).
    rewrite (lor_disjoint _ _ 16) by (change (2 ^ 8) with 256; change (2 ^ 16) with 65536; divlia).
    rewrite (lor_disjoint _ _ 24) by
      (change (2 ^ 8) with 256; change (2 ^ 16) with 65536; change (2 ^ 24) with 16777216; divlia).
    rewrite Z.shiftr_div_pow2 by lia.
    change (2 ^ 2) with 4. change (2 ^ 8) with 256.
    change (2 ^ 16) with 65536. change (2 ^ 24) with 16777216. divlia.
Qed.

(** The Levin round trip, whatever follows the encoding in the buffer. *)
Lemma levin_varint_write_read_at (x : Z) (post : Buffer.t) :
  0 <= x <= 1073741823 ->
  exists w,
    Writer.varint x true Writer.new = (Return true, w)
    /\ Reader.varint false true (Reader.mk 0 (Writer.buffer w ++ post))
       = (Return x, Reader.mk (Writer.length w) (Writer.buffer w ++ post)).
Proof.
  intros Hx. unfold Writer.varint. cbn [negb].
  destruct (1073741823 <? x) eqn:E; [apply Z.ltb_lt in E; lia|]. clear E.
  assert (Hx30 : 0 <= x < 2 ^ 30) by (change (2 ^ 30) with 1073741824; lia).
  assert (Hgo : forall count k bound,
             levin_class count k bound -> 4 * x + k < bound -> 0 <= k < 4 ->
             exists w,
               (Writer.levin_bytes count 0 (JS.bor (JS.shl x 2) k);; ret true) Writer.new
               = (Return true, w)
               /\ Reader.varint false true (Reader.mk 0 (Writer.buffer w ++ post))
                  = (Return x, Reader.mk (Writer.length w) (Writer.buffer w ++ post))).
  { intros count k bound Hclass Hbound Hk.
    unfold bind. rewrite levin_bytes_spec. unfold ret. eexists. split; [reflexivity|].
    unfold Writer.buffer, Writer.length, Buffer.length.
    cbn [Writer.m_buffer Writer.new app].
    rewrite levin_temp by assumption.
    rewrite (levin_read_back (4 * x + k) count k bound post Hclass) by (try lia; divlia).
    f_equal; [f_equal; divlia|]. f_equal.
    destruct Hclass as [(-> & _)|[(-> & _)|(-> & _)]]; reflexivity. }
  destruct (x <=? 63) eqn:E1; [apply Z.leb_le in E1|apply Z.leb_gt in E1].
  - apply (Hgo 1%nat 0 (2 ^ 8)); [left; auto|change (2 ^ 8) with 256; lia|lia].
  - destruct (x <=? 16383) eqn:E2; [apply Z.leb_le in E2|apply Z.leb_gt in E2].
    + apply (Hgo 2%nat 1 (2 ^ 16)); [right; left; auto|change (2 ^ 16) with 65536; lia|lia].
    + apply (Hgo 4%nat 2 (2 ^ 32)); [right; right; auto|change (2 ^ 32) with 4294967296; lia|lia].
Qed.

(** The Levin round trip at the head of any buffer. *)
Theorem levin_varint_roundtrip_at (x : Z) (post : Buffer.t) :
  0 <= x <= 1073741823 ->
  exists w,
    Writer.varint x true Writer.new = (Return true, w)
    /\ Reader.varint false true (Reader.mk 0 (Writer.buffer w ++ post))
       = (Return x, Reader.mk (Writer.length w) (Writer.buffer w ++ post)).
Proof. exact (levin_varint_write_read_at x post). Qed.

Lemma levin_varint_roundtrip_at_witness :
  exists w,
    Writer.varint 70000 true Writer.new = (Return true, w)
    /\ Reader.varint false true (Reader.mk 0 (Writer.buffer w ++ [1; 2]))
       = (Return 70000, Reader.mk (Writer.length w) (Writer.buffer w ++ [1; 2])).
Proof. apply (levin_varint_roundtrip_at 70000 [1; 2]). lia. Defined.

(** C4. For every [x] in [0, 1073741823]: a fresh [Writer] accepts
    [varint(x, true)], and a [Reader] over what was written returns [x] from
    [varint(false, true)], with the cursor after the octets written. The
    Levin encodings of 0, 127, 32767 and 1073741823 are "00", "fd01",
    "feff0100" and "feffffff", and 1073741824 is a [RangeError] that writes
    nothing. *)
Theorem levin_varint_write_read_roundtrip (x : Z) :
  0 <= x <= 1073741823 ->
  (exists w r,
      Writer.varint x true Writer.new = (Return true, w)
      /\ Reader.new (Reader.BWriter w) = Return r
      /\ Reader.varint false true r = (Return x, Reader.mk (Writer.length w) (Reader.buffer r)))
  /\ Writer.blob (snd (Writer.varint 0 true Writer.new)) = "00"%string
  /\ Writer.blob (snd (Writer.varint 127 true Writer.new)) = "fd01"%string
  /\ Writer.blob (snd (Writer.varint 32767 true Writer.new)) = "feff0100"%string
  /\ Writer.blob (snd (Writer.varint 1073741823 true Writer.new)) = "feffffff"%string
  /\ Writer.varint 1073741824 true Writer.new
     = (Throw (RangeError "value out of range"), Writer.new).
Proof.
  intros Hx. split; [|repeat (split; [reflexivity|]); reflexivity].
  destruct (levin_varint_write_read_at x [] Hx) as (w & Hw & Hr).
  rewrite app_nil_r in Hr.
  exists w, (Reader.mk 0 (Writer.buffer w)). split; [exact Hw|]. split; [reflexivity|exact Hr].
Qed.

Lemma levin_varint_write_read_roundtrip_witness :
  (exists w r,
      Writer.varint 32767 true Writer.new = (Return true, w)
      /\ Reader.new (Reader.BWriter w) = Return r
      /\ Reader.varint false true r = (Return 32767, Reader.mk (Writer.length w) (Reader.buffer r)))
  /\ Writer.blob (snd (Writer.varint 0 true Writer.new)) = "00"%string
  /\ Writer.blob (snd (Writer.varint 127 true Writer.new)) = "fd01"%string
  /\ Writer.blob (snd (Writer.varint 32767 true Writer.new)) = "feff0100"%string
  /\ Writer.blob (snd (Writer.varint 1073741823 true Writer.new)) = "feffffff"%string
  /\ Writer.varint 1073741824 true Writer.new
     = (Throw (RangeError "value out of range"), Writer.new).
Proof. apply (levin_varint_write_read_roundtrip 32767). lia. Defined.

(** ** The varint below 2^1024 *)

Lemma lor_continuation num : 0 <= num -> Z.lor (Z.land num 0xFF) 0x80 = 128 + num mod 128.
Proof.
  intros Hn. change 255 with (Z.ones 8). rewrite Z.land_ones by lia. change (2 ^ 8) with 256.
  assert (Hm : 0 <= num mod 256 < Z.of_nat 256) by divlia.
  apply (forall_below (fun m => Z.lor m 128 =? 128 + m mod 128) 256) in Hm; [|reflexivity].
  apply Z.eqb_eq in Hm. rewrite Hm. divlia.
Qed.

Lemma encode_loop1_emit fuel :
  forall num out, 0 <= num ->
  Varint.encode_loop1 fuel num out = emit_loop (fun n => 2 ^ 31 <=? n) fuel num out.
Proof.
  induction fuel as [|fuel IH]; intros num out Hn; [reflexivity|].
  cbn [Varint.encode_loop1 emit_loop]. destruct (2 ^ 31 <=? num); [|reflexivity].
  rewrite Z.quot_div_nonneg, lor_continuation by lia. apply IH. divlia.
Qed.

Lemma land_lnot_127 num : 0 <= num -> (0 <? Z.land num (Z.lnot 0x7F)) = (128 <=? num).
Proof.
  intros Hn. rewrite <- Z.ldiff_land. change 127 with (Z.ones 7).
  rewrite Z.ldiff_ones_r, Z.shiftr_div_pow2, Z.shiftl_mul_pow2 by lia.
  change (2 ^ 7) with 128.
  destruct (128 <=? num) eqn:E; [apply Z.leb_le in E; apply Z.ltb_lt|apply Z.leb_gt in E; apply Z.ltb_ge];
    divlia.
Qed.

Lemma encode_loop2_emit fuel :
  forall num out, 0 <= num ->
  Varint.encode_loop2 fuel num out = emit_loop (fun n => 128 <=? n) fuel num out.
Proof.
  induction fuel as [|fuel IH]; intros num out Hn; [reflexivity|].
  cbn [Varint.encode_loop2 emit_loop]. rewrite land_lnot_127 by exact Hn.
  destruct (128 <=? num); [|reflexivity].
  rewrite Z.shiftr_div_pow2, lor_continuation by lia. change (2 ^ 7) with 128. apply IH. divlia.
Qed.

Lemma emit_loop_out cond fuel :
  forall num out,
    emit_loop cond fuel num out
    = (fst (emit_loop cond fuel num []), out ++ snd (emit_loop cond fuel num [])).
Proof.
  induction fuel as [|fuel IH]; intros num out.
  - simpl. rewrite app_nil_r. reflexivity.
  - cbn [emit_loop]. destruct (cond num).
    + rewrite IH. rewrite (IH _ ([] ++ _)). cbn [fst snd app]. rewrite <- app_assoc. reflexivity.
    + simpl. rewrite app_nil_r. reflexivity.
Qed.

Lemma band_7f b : octet b -> JS.band b 0x7f = b mod 128.
Proof.
  intros Hb.
  apply (forall_below (fun b => JS.band b 127 =? b mod 128) 256) in Hb; [|reflexivity].
  apply Z.eqb_eq in Hb. exact Hb.
Qed.

Lemma shl_small m k :
  0 <= m < 128 -> 0 <= k < 4 -> JS.shl m (7 * k) = m * 2 ^ (7 * k).
Proof.
  intros Hm Hk.
  assert (Hm' : 0 <= m < Z.of_nat 128) by lia.
  assert (Hc : k = 0 \/ k = 1 \/ k = 2 \/ k = 3) by lia.
  destruct Hc as [->|[->|[->| ->]]].
  - apply (forall_below (fun m => JS.shl m (7 * 0) =? m * 2 ^ (7 * 0)) 128) in Hm';
      [apply Z.eqb_eq in Hm'; exact Hm'|reflexivity].
  - apply (forall_below (fun m => JS.shl m (7 * 1) =? m * 2 ^ (7 * 1)) 128) in Hm';
      [apply Z.eqb_eq in Hm'; exact Hm'|reflexivity].
  - apply (forall_below (fun m => JS.shl m (7 * 2) =? m * 2 ^ (7 * 2)) 128) in Hm';
      [apply Z.eqb_eq in Hm'; exact Hm'|reflexivity].
  - apply (forall_below (fun m => JS.shl m (7 * 3) =? m * 2 ^ (7 * 3)) 128) in Hm';
      [apply Z.eqb_eq in Hm'; exact Hm'|reflexivity].
Qed.

(** One iteration of [decode] on an octet whose addend is a finite double. *)
Lemma decode_step b rest k acc :
  octet b -> 0 <= k -> 7 * k < 1024 -> (b mod 128) * 2 ^ (7 * k) < 2 ^ 1024 ->
  Varint.decode_loop (b :: rest) (7 * k) acc
  = if 128 <=? b
    then Varint.decode_loop rest (7 * (k + 1)) (acc + (b mod 128) * 2 ^ (7 * k))
    else Return (acc + (b mod 128) * 2 ^ (7 * k)).
Proof.
  intros Hb Hk Hk' Hfin. cbn [Varint.decode_loop].
  rewrite band_7f by exact Hb.
  assert (Hv : (if 7 * k <? 28
                then Some (JS.shl (b mod 128) (7 * k))
                else JS.mul_pow2 (b mod 128) (7 * k))
               = Some ((b mod 128) * 2 ^ (7 * k))).
  { destruct (7 * k <? 28) eqn:E; [apply Z.ltb_lt in E|apply Z.ltb_ge in E].
    - rewrite shl_small by divlia. reflexivity.
    - unfold JS.mul_pow2.
      destruct (1024 <=? 7 * k) eqn:E1; [apply Z.leb_le in E1; lia|].
      apply Z.ltb_lt in Hfin. rewrite Hfin. reflexivity. }
  rewrite Hv. change 128 with 0x80. replace (7 * k + 7) with (7 * (k + 1)) by lia.
  reflexivity.
Qed.

Lemma pow_7_succ k : 0 <= k -> 2 ^ (7 * (k + 1)) = 128 * 2 ^ (7 * k).
Proof.
  intros Hk. replace (7 * (k + 1)) with (7 + 7 * k) by lia.
  rewrite Z.pow_add_r by lia. reflexivity.
Qed.

Lemma shift_below_1024 n k : 0 <= k -> 1 <= n -> n * 2 ^ (7 * k) < 2 ^ 1024 -> 7 * k < 1024.
Proof.
  intros Hk Hn Hlt.
  apply (Z.pow_lt_mono_r_iff 2); [lia|lia|].
  assert (0 < 2 ^ (7 * k)) by (apply Z.pow_pos_nonneg; lia). nia.
Qed.

Lemma emit_decode cond :
  (forall n, cond n = true -> 128 <= n) ->
  forall fuel num k,
    0 <= num -> 0 <= k -> 7 * k < 1024 -> num * 2 ^ (7 * k) < 2 ^ 1024 ->
    exists n' bs k',
      emit_loop cond fuel num [] = (n', bs)
      /\ 0 <= n' <= num /\ k <= k' /\ 7 * k' < 1024 /\ n' * 2 ^ (7 * k') < 2 ^ 1024
      /\ (num < 2 ^ Z.of_nat fuel -> cond n' = false)
      /\ Forall continuation bs
      /\ forall acc rest,
          Varint.decode_loop (bs ++ rest) (7 * k) acc
          = Varint.decode_loop rest (7 * k') (acc + num * 2 ^ (7 * k) - n' * 2 ^ (7 * k')).
Proof.
  intros Hcond. induction fuel as [|fuel IH]; intros num k Hn Hk Hk7 Hfin.
  - exists num, [], k. cbn [emit_loop app].
    split; [reflexivity|]. split; [lia|]. split; [lia|]. split; [exact Hk7|].
    split; [exact Hfin|]. split.
    { intros Hlt. change (2 ^ Z.of_nat 0) with 1 in Hlt.
      destruct (cond num) eqn:E; [|reflexivity]. apply Hcond in E. lia. }
    split; [constructor|]. intros acc rest. f_equal. lia.
  - cbn [emit_loop]. destruct (cond num) eqn:E.
    + pose proof (Hcond _ E) as Hge.
      assert (Hpos : 0 < 2 ^ (7 * k)) by (apply Z.pow_pos_nonneg; lia).
      assert (Hq : 1 <= num / 128) by divlia.
      assert (Hfin' : num / 128 * 2 ^ (7 * (k + 1)) < 2 ^ 1024).
      { rewrite pow_7_succ by lia.
        assert (num / 128 * 128 <= num) by divlia. nia. }
      destruct (IH (num / 128) (k + 1)) as (n' & bs & k' & Heq & Hn' & Hkk & Hk7' & Hfin'' & Hfuel & Hcont & Hdec);
        [lia|lia|apply (shift_below_1024 (num / 128) (k + 1)); [lia|exact Hq|exact Hfin']
        |exact Hfin'|].
      exists n', ((128 + num mod 128) :: bs), k'.
      rewrite emit_loop_out, Heq. cbn [fst snd app].
      split; [reflexivity|]. split; [divlia|]. split; [lia|]. split; [exact Hk7'|].
      split; [exact Hfin''|]. split.
      { intros Hlt. apply Hfuel. rewrite Nat2Z.inj_succ, Z.pow_succ_r in Hlt by lia.
        assert (0 < 2 ^ Z.of_nat fuel) by (apply Z.pow_pos_nonneg; lia). divlia. }
      split; [constructor; [unfold continuation; divlia|exact Hcont]|].
      intros acc rest.
      assert (Hmod : (128 + num mod 128) mod 128 = num mod 128) by divlia.
      rewrite decode_step; [|unfold octet; divlia|lia|lia|].
      * destruct (128 <=? 128 + num mod 128) eqn:E1; [|apply Z.leb_gt in E1; divlia].
        rewrite Hdec, Hmod. f_equal. rewrite pow_7_succ by lia.
        assert (Hdm : num = 128 * (num / 128) + num mod 128) by divlia.
        rewrite Hdm at 3. lia.
      * rewrite Hmod. assert (num mod 128 <= num) by divlia. nia.
    + exists num, [], k. cbn [app].
      split; [reflexivity|]. split; [lia|]. split; [lia|]. split; [exact Hk7|].
      split; [exact Hfin|]. split; [intros _; exact E|].
      split; [constructor|]. intros acc rest. f_equal. lia.
Qed.

Lemma from_array_octets l : Forall octet l -> Buffer.from_array l = l.
Proof.
  induction 1 as [|x l Hx _ IH]; [reflexivity|].
  cbn [Buffer.from_array map]. fold (Buffer.from_array l).
  rewrite IH, land_255_octet by exact Hx. reflexivity.
Qed.

Lemma continuation_octet b : continuation b -> octet b.
Proof. unfold continuation, octet. lia. Qed.

Lemma log2_lt_fuel x : 0 <= x -> x < 2 ^ Z.of_nat (S (Z.to_nat (Z.log2 x))).
Proof.
  intros Hx. rewrite Nat2Z.inj_succ, Z2Nat.id by apply Z.log2_nonneg.
  destruct (Z.eq_dec x 0) as [->|Hne]; [reflexivity|].
  apply Z.log2_spec. lia.
Qed.

(** The shape of [encode x] and what [decode] makes of it. *)
Lemma encode_spec x :
  0 <= x < 2 ^ 1024 ->
  exists conts last,
    Varint.encode x = conts ++ [last]
    /\ Forall continuation conts /\ 0 <= last < 128
    /\ Varint.decode (Varint.encode x) = Return x.
Proof.
  intros Hx. unfold Varint.encode.
  set (fuel := S (Z.to_nat (Z.log2 x))).
  pose proof (log2_lt_fuel x ltac:(lia)) as Hfuel. fold fuel in Hfuel.
  rewrite encode_loop1_emit by lia.
  destruct (emit_decode (fun n => 2 ^ 31 <=? n)
              ltac:(intros n Hn; apply Z.leb_le in Hn; change (2 ^ 31) with 2147483648 in Hn; lia)
              fuel x 0)
    as (n1 & bs1 & k1 & Heq1 & Hn1 & Hk1 & Hk17 & Hfin1 & _ & Hc1 & Hdec1); try lia.
  rewrite Heq1, encode_loop2_emit, emit_loop_out by lia.
  destruct (emit_decode (fun n => 128 <=? n)
              ltac:(intros n Hn; apply Z.leb_le in Hn; exact Hn)
              fuel n1 k1)
    as (n2 & bs2 & k2 & Heq2 & Hn2 & Hk2 & Hk27 & Hfin2 & Hstop & Hc2 & Hdec2); try lia.
  rewrite Heq2. cbn [fst snd].
  specialize (Hstop ltac:(lia)). apply Z.leb_gt in Hstop.
  rewrite Z.lor_0_r.
  assert (Hoct : Forall octet ((bs1 ++ bs2) ++ [n2])).
  { apply Forall_app. split.
    - apply Forall_app. split; eapply Forall_impl; eauto using continuation_octet.
    - constructor; [unfold octet; lia|constructor]. }
  rewrite from_array_octets by exact Hoct.
  exists (bs1 ++ bs2), n2. split; [reflexivity|].
  split; [apply Forall_app; split; assumption|]. split; [lia|].
  unfold Varint.decode. rewrite <- !app_assoc.
  change 0 with (7 * 0) at 1. rewrite Hdec1, Hdec2.
  rewrite decode_step; [|unfold octet; lia|lia|lia|].
  - destruct (128 <=? n2) eqn:E; [apply Z.leb_le in E; lia|].
    rewrite (Z.mod_small n2 128) by lia. f_equal. change (2 ^ (7 * 0)) with 1. lia.
  - rewrite (Z.mod_small n2 128) by lia. exact Hfin2.
Qed.

(** The varint round trip below [2^1024], with the vectors of the tests. *)
Theorem varint_decode_encode_below_2_1024 (x : Z) :
  0 <= x < 2 ^ 1024 ->
  Varint.decode (Varint.encode x) = Return x
  /\ Buffer.toString_hex (Varint.encode 0) = "00"%string
  /\ Buffer.toString_hex (Varint.encode 127) = "7f"%string
  /\ Buffer.toString_hex (Varint.encode 255) = "ff01"%string
  /\ Buffer.toString_hex (Varint.encode (2 ^ 31 - 1)) = "ffffffff07"%string
  /\ Buffer.toString_hex (Varint.encode (2 ^ 64 - 1)) = "ffffffffffffffffff01"%string.
Proof.
  intros Hx. split; [|repeat (split; [reflexivity|]); reflexivity].
  destruct (encode_spec x Hx) as (_ & _ & _ & _ & _ & H). exact H.
Qed.

Lemma varint_decode_encode_below_2_1024_witness :
  Varint.decode (Varint.encode (2 ^ 64 - 1)) = Return (2 ^ 64 - 1)
  /\ Buffer.toString_hex (Varint.encode 0) = "00"%string
  /\ Buffer.toString_hex (Varint.encode 127) = "7f"%string
  /\ Buffer.toString_hex (Varint.encode 255) = "ff01"%string
  /\ Buffer.toString_hex (Varint.encode (2 ^ 31 - 1)) = "ffffffff07"%string
  /\ Buffer.toString_hex (Varint.encode (2 ^ 64 - 1)) = "ffffffffffffffffff01"%string.
Proof.
  apply (varint_decode_encode_below_2_1024 (2 ^ 64 - 1)). split; [lia|reflexivity].
Defined.

Lemma readUInt8_lookup buf o b :
  0 <= o -> buf !! Z.to_nat o = Some b -> Buffer.readUInt8 buf o = Return b.
Proof.
  intros Ho Hlook. pose proof (lookup_lt_Some _ _ _ Hlook) as Hlt.
  unfold Buffer.readUInt8, Buffer.in_range.
  destruct (_ && _) eqn:E.
  - rewrite slice_inside by (unfold Buffer.length; lia).
    rewrite (drop_S _ _ _ Hlook). unfold Buffer.be_value. simpl. reflexivity.
  - apply andb_false_iff in E. unfold Buffer.length in E.
    destruct E as [E|E]; [apply Z.leb_gt in E|apply Z.leb_gt in E]; lia.
Qed.

Lemma varint_loop_spec buf start peek last post conts :
  Forall continuation conts -> 0 <= last < 128 -> 0 <= start ->
  forall done fuel,
    drop (Z.to_nat start) buf = (done ++ conts) ++ [last] ++ post ->
    (List.length conts < fuel)%nat ->
    Reader.varint_loop fuel start peek (Reader.mk (start + Z.of_nat (List.length done)) buf)
    = (Varint.decode ((done ++ conts) ++ [last]),
       Reader.mk (if peek then start
                  else start + Z.of_nat (List.length ((done ++ conts) ++ [last]))) buf).
Proof.
  intros Hconts Hlast Hstart.
  induction Hconts as [|c conts Hc _ IH]; intros done fuel Hdrop Hfuel.
  - destruct fuel as [|fuel]; [simpl in Hfuel; lia|]. clear Hfuel.
    rewrite app_nil_r in *.
    assert (Hlook : buf !! Z.to_nat (start + Z.of_nat (List.length done)) = Some last).
    { replace (Z.to_nat (start + Z.of_nat (List.length done)))
        with (Z.to_nat start + List.length done)%nat by lia.
      rewrite <- lookup_drop, Hdrop, lookup_app_r by lia.
      rewrite Nat.sub_diag. reflexivity. }
    cbn [Reader.varint_loop]. unfold bind at 1. unfold get at 1.
    unfold bind at 1. unfold lift at 1. cbn [Reader.m_buffer Reader.m_current_offset].
    rewrite (readUInt8_lookup buf (start + Z.of_nat (List.length done)) _) by (try exact Hlook; lia).
    destruct (last <? 128) eqn:E; [clear E|apply Z.ltb_ge in E; lia].
    unfold bind, Reader.advance, get, Reader.offset. cbn [Reader.m_buffer Reader.m_current_offset].
    assert (Hslice : Buffer.slice buf start (start + Z.of_nat (List.length done) + 1)
                     = done ++ [last]).
    { pose proof (lookup_lt_Some _ _ _ Hlook) as Hlt.
      replace (start + Z.of_nat (List.length done) + 1)
        with (start + (Z.of_nat (List.length done) + 1)) by lia.
      rewrite slice_inside by (unfold Buffer.length; lia).
      rewrite Hdrop. rewrite app_assoc.
      rewrite take_app_length'; [reflexivity|rewrite length_app; simpl; lia]. }
    rewrite Hslice. rewrite length_app. cbn [List.length].
    destruct peek; unfold Reader.set_offset, ret, lift; cbn [Reader.m_buffer]; f_equal; f_equal; lia.
  - destruct fuel as [|fuel]; [simpl in Hfuel; lia|]. simpl in Hfuel.
    assert (Hlook : buf !! Z.to_nat (start + Z.of_nat (List.length done)) = Some c).
    { replace (Z.to_nat (start + Z.of_nat (List.length done)))
        with (Z.to_nat start + List.length done)%nat by lia.
      rewrite <- lookup_drop, Hdrop, <- !app_assoc, lookup_app_r by lia.
      rewrite Nat.sub_diag. reflexivity. }
    cbn [Reader.varint_loop]. unfold bind at 1. unfold get at 1.
    unfold bind at 1. unfold lift at 1. cbn [Reader.m_buffer Reader.m_current_offset].
    rewrite (readUInt8_lookup buf (start + Z.of_nat (List.length done)) _) by (try exact Hlook; lia).
    destruct (c <? 128) eqn:E; [apply Z.ltb_lt in E; unfold continuation in Hc; lia|clear E].
    unfold bind at 1. unfold Reader.advance at 1. cbn [Reader.m_buffer Reader.m_current_offset].
    specialize (IH (done ++ [c]) fuel).
    rewrite length_app in IH. cbn [List.length] in IH.
    replace (start + Z.of_nat (List.length done + 1)) with (start + Z.of_nat (List.length done) + 1)
      in IH by lia.
    rewrite <- !app_assoc in *. cbn [app] in *.
    apply IH; [exact Hdrop|lia].
Qed.

(** Reading a varint without [levin] where the cursor is at an encoding:
    the value is returned and the cursor is after the encoding, or, with
    [peek], where it was. *)
Theorem varint_read_and_peek (x : Z) (peek : bool) (r : Reader.t) (post : Buffer.t) :
  0 <= x < 2 ^ 1024 -> 0 <= Reader.offset r ->
  drop (Z.to_nat (Reader.offset r)) (Reader.buffer r) = Varint.encode x ++ post ->
  Reader.varint peek false r
  = (Return x,
     Reader.mk (if peek then Reader.offset r
                else Reader.offset r + Buffer.length (Varint.encode x))
       (Reader.buffer r)).
Proof.
  intros Hx Ho Hdrop.
  destruct (encode_spec x Hx) as (conts & last & Henc & Hconts & Hlast & Hdec).
  destruct r as [o buf]. unfold Reader.offset, Reader.buffer in *.
  cbn [Reader.m_current_offset Reader.m_buffer] in *.
  unfold Reader.varint. unfold bind at 1. unfold get at 1. cbn [negb Reader.m_current_offset Reader.m_buffer].
  rewrite Henc in Hdrop.
  pose proof (varint_loop_spec buf o peek last post conts Hconts Hlast Ho [] (S (List.length buf))) as H.
  cbn [app List.length Z.of_nat] in H. rewrite Z.add_0_r in H.
  rewrite H.
  - rewrite <- Henc, Hdec. reflexivity.
  - rewrite Hdrop, <- app_assoc. reflexivity.
  - assert (Hlen : List.length (drop (Z.to_nat o) buf) = List.length ((conts ++ [last]) ++ post))
      by (rewrite Hdrop; reflexivity).
    rewrite length_drop, !length_app in Hlen. lia.
Qed.

Lemma varint_read_and_peek_witness :
  Reader.varint true false (Reader.mk 1 [9; 255; 1; 7])
  = (Return 255,
     Reader.mk (if true then Reader.offset (Reader.mk 1 [9; 255; 1; 7])
                else Reader.offset (Reader.mk 1 [9; 255; 1; 7]) + Buffer.length (Varint.encode 255))
       (Reader.buffer (Reader.mk 1 [9; 255; 1; 7]))).
Proof.
  apply (varint_read_and_peek 255 true (Reader.mk 1 [9; 255; 1; 7]) [7]);
    [split; [lia|reflexivity]|simpl; lia|reflexivity].
Defined.

(** ** Signed integers *)

Lemma length_le_octets width : forall v, List.length (Buffer.le_octets width v) = width.
Proof. induction width as [|width IH]; intros v; simpl; [reflexivity|]. rewrite IH. reflexivity. Qed.

Lemma le_octets_octets width : forall v, Forall octet (Buffer.le_octets width v).
Proof.
  induction width as [|width IH]; intros v; simpl; constructor; [|apply IH].
  unfold octet. divlia.
Qed.

Lemma be_value_snoc l x : Buffer.be_value (l ++ [x]) = Buffer.be_value l * 256 + x.
Proof. unfold Buffer.be_value. rewrite fold_left_app. reflexivity. Qed.

Lemma be_value_reverse_le_octets width :
  forall v, Buffer.be_value (reverse (Buffer.le_octets width v)) = v mod 256 ^ Z.of_nat width.
Proof.
  induction width as [|width IH]; intros v.
  - simpl. rewrite Z.mod_1_r. reflexivity.
  - cbn [Buffer.le_octets]. rewrite reverse_cons, be_value_snoc, IH.
    rewrite Nat2Z.inj_succ, Z.pow_succ_r by lia.
    assert (Hp : 0 < 256 ^ Z.of_nat width) by (apply Z.pow_pos_nonneg; lia).
    rewrite Z.rem_mul_r by lia. lia.
Qed.

Lemma signed_wrap bits v :
  0 < bits -> - 2 ^ (bits - 1) <= v < 2 ^ (bits - 1) ->
  Buffer.signed bits (v mod 2 ^ bits) = v.
Proof.
  intros Hb Hv. unfold Buffer.signed.
  assert (Hp : 2 ^ bits = 2 * 2 ^ (bits - 1)).
  { replace bits with (Z.succ (bits - 1)) at 1 by lia. apply Z.pow_succ_r. lia. }
  assert (Hpos : 0 < 2 ^ (bits - 1)) by (apply Z.pow_pos_nonneg; lia).
  destruct (Z.lt_ge_cases v 0) as [Hneg|Hnn].
  - assert (Hm : v mod 2 ^ bits = v + 2 ^ bits).
    { symmetry. apply (Z.mod_unique _ _ (-1)); lia. }
    rewrite Hm. destruct (_ <? _) eqn:E; [apply Z.ltb_lt in E|]; lia.
  - rewrite Z.mod_small by lia.
    destruct (_ <? _) eqn:E; [reflexivity|apply Z.ltb_ge in E; lia].
Qed.

Lemma writeInt_in_range width v :
  0 < width -> - 2 ^ (8 * width - 1) <= v < 2 ^ (8 * width - 1) ->
  Buffer.writeIntLE width (replicate (Z.to_nat width) 0) v 0
  = Return (Buffer.le_octets (Z.to_nat width) v)
  /\ Buffer.writeIntBE width (replicate (Z.to_nat width) 0) v 0
     = Return (reverse (Buffer.le_octets (Z.to_nat width) v)).
Proof.
  intros Hw Hv. unfold Buffer.writeIntLE, Buffer.writeIntBE.
  destruct (_ || _) eqn:E.
  { apply orb_true_iff in E. destruct E as [E|E]; apply Z.ltb_lt in E; lia. }
  assert (Hin : Buffer.in_range (replicate (Z.to_nat width) 0) 0 width = true).
  { unfold Buffer.in_range, Buffer.length. rewrite length_replicate.
    apply andb_true_iff. split; [reflexivity|apply Z.leb_le; lia]. }
  rewrite Hin. unfold Buffer.write_back, Buffer.clamp, Buffer.length.
  rewrite length_replicate. cbn [Z.ltb Z.compare]. rewrite Z.min_l by lia.
  cbn [Z.to_nat take]. rewrite length_reverse, length_le_octets.
  rewrite drop_ge by (rewrite length_replicate; lia).
  rewrite !app_nil_r. split; reflexivity.
Qed.

(** [int_t] with an explicit width that is a positive multiple of 8, as one
    case analysis on the number of octets. *)
Lemma int_t_explicit_width v b be w :
  0 < b -> b mod 8 = 0 ->
  Writer.int_t v (Some b) be w
  = let zeros := replicate (Z.to_nat (b / 8)) 0 in
    match
      (if b / 8 =? 1 then Some (Buffer.writeIntLE 1 zeros v 0)
       else if b / 8 =? 2
            then Some (if be then Buffer.writeIntBE 2 zeros v 0
                       else Buffer.writeIntLE 2 zeros v 0)
            else if b / 8 =? 4
                 then Some (if be then Buffer.writeIntBE 4 zeros v 0
                            else Buffer.writeIntLE 4 zeros v 0)
                 else None)
    with
    | None => (Return false, w)
    | Some (Return buf) =>
        (Return true, Writer.mk (Writer.m_buffer w ++ buf) (Writer.m_readIndex w))
    | Some (Throw e) => (Throw e, w)
    end.
Proof.
  intros Hb Hm. destruct (multiple_of_8 b Hb Hm) as (Hrem & Hquot & Hn & _).
  unfold Writer.int_t, Writer.falsy. cbv beta iota zeta. rewrite Hrem.
  destruct (b =? 0) eqn:E; [apply Z.eqb_eq in E; lia|]. clear E.
  cbn [negb andb Z.eqb]. unfold bind at 1. unfold ret at 1. rewrite Hquot.
  unfold bind at 1. unfold lift at 1. unfold Buffer.alloc.
  destruct (b / 8 <? 0) eqn:E; [apply Z.ltb_lt in E; lia|]. clear E.
  cbv zeta.
  destruct (b / 8 =? 1); [|destruct (b / 8 =? 2); [|destruct (b / 8 =? 4)]];
    unfold bind, lift, ret; cbn [Writer.write];
    repeat match goal with
      | |- context [if be then _ else _] => destruct be
      | |- context [match ?c with Return _ => _ | Throw _ => _ end] => destruct c
      end; reflexivity.
Qed.

Lemma Writer_int_t_spec v b be w :
  b = 8 \/ b = 16 \/ b = 32 -> - 2 ^ (b - 1) <= v < 2 ^ (b - 1) ->
  Writer.int_t v (Some b) be w
  = (Return true, Writer.mk (Writer.m_buffer w ++ int_octets v b be) (Writer.m_readIndex w)).
Proof.
  intros Hb Hv. unfold int_octets.
  destruct Hb as [->|[->| ->]]; rewrite int_t_explicit_width by (try reflexivity; lia).
  - destruct (writeInt_in_range 1 v ltac:(lia) Hv) as [HLE _].
    change (8 / 8) with 1. cbv zeta. change (1 =? 1) with true. cbv iota.
    rewrite HLE. destruct be; reflexivity.
  - destruct (writeInt_in_range 2 v ltac:(lia) Hv) as [HLE HBE].
    change (16 / 8) with 2. cbv zeta. change (2 =? 1) with false. change (2 =? 2) with true.
    cbv iota. destruct be; [rewrite HBE|rewrite HLE]; reflexivity.
  - destruct (writeInt_in_range 4 v ltac:(lia) Hv) as [HLE HBE].
    change (32 / 8) with 4. cbv zeta.
    change (4 =? 1) with false. change (4 =? 2) with false. change (4 =? 4) with true.
    cbv iota. destruct be; [rewrite HBE|rewrite HLE]; reflexivity.
Qed.

(** [Reader.int_t] with enough octets after the cursor, for any width. *)
Lemma int_t_enough_octets b be r :
  0 < b -> b mod 8 = 0 ->
  0 <= Reader.offset r -> Reader.offset r + b / 8 <= Reader.length r ->
  Reader.int_t b be r
  = let r' := Reader.mk (Reader.offset r + b / 8) (Reader.m_buffer r) in
    let s := take (Z.to_nat (b / 8)) (drop (Z.to_nat (Reader.offset r)) (Reader.m_buffer r)) in
    if b / 8 =? 1 then (Return (Buffer.signed 8 (Buffer.be_value s)), r')
    else if (b / 8 =? 2) || (b / 8 =? 4)
         then (Return (Buffer.signed b (Buffer.be_value (if be then s else reverse s))), r')
         else (Throw (Error "cannot read int64_t"), r').
Proof.
  intros Hb Hm Ho Hlen. destruct (multiple_of_8 b Hb Hm) as (Hrem & Hquot & Hn & H8).
  unfold Reader.int_t. rewrite Hrem, Hquot. cbn [Z.eqb negb].
  unfold bind at 1. unfold get at 1.
  rewrite unreadBytes_inside by lia.
  destruct (_ <? _) eqn:E; [apply Z.ltb_lt in E; lia|]. clear E.
  unfold bind at 1. unfold Reader.advance at 1. unfold bind at 1. unfold get at 1.
  cbn [Reader.m_buffer Reader.m_current_offset]. cbv zeta.
  unfold Reader.length, Buffer.length in Hlen. unfold Reader.offset in *.
  assert (Hin : forall width, width = b / 8 ->
                Buffer.in_range (Reader.m_buffer r) (Reader.m_current_offset r) width = true).
  { intros width ->. unfold Buffer.in_range, Buffer.length.
    apply andb_true_iff. split; apply Z.leb_le; lia. }
  destruct (b / 8 =? 1) eqn:E1.
  { apply Z.eqb_eq in E1. unfold lift, Buffer.readInt8. rewrite (Hin 1) by lia.
    replace (Reader.m_current_offset r + 1) with (Reader.m_current_offset r + b / 8) by lia.
    rewrite slice_inside by (unfold Buffer.length; lia). rewrite E1. reflexivity. }
  destruct (b / 8 =? 2) eqn:E2.
  { apply Z.eqb_eq in E2. cbn [orb]. unfold lift, Buffer.readIntBE, Buffer.readIntLE.
    rewrite (Hin 2) by lia. replace (8 * 2) with b by lia.
    replace (Reader.m_current_offset r + 2) with (Reader.m_current_offset r + b / 8) by lia.
    rewrite slice_inside by (unfold Buffer.length; lia). rewrite E2.
    destruct be; reflexivity. }
  destruct (b / 8 =? 4) eqn:E4.
  { apply Z.eqb_eq in E4. cbn [orb]. unfold lift, Buffer.readIntBE, Buffer.readIntLE.
    rewrite (Hin 4) by lia. replace (8 * 4) with b by lia.
    replace (Reader.m_current_offset r + 4) with (Reader.m_current_offset r + b / 8) by lia.
    rewrite slice_inside by (unfold Buffer.length; lia). rewrite E4.
    destruct be; reflexivity. }
  reflexivity.
Qed.

Lemma int_octets_spec v b be :
  b = 8 \/ b = 16 \/ b = 32 -> - 2 ^ (b - 1) <= v < 2 ^ (b - 1) ->
  List.length (int_octets v b be) = Z.to_nat (b / 8)
  /\ Buffer.signed b (Buffer.be_value (if be then int_octets v b be
                                       else reverse (int_octets v b be))) = v.
Proof.
  intros Hb Hv. unfold int_octets. split.
  - destruct be; rewrite ?length_reverse, length_le_octets; reflexivity.
  - assert (Hval : Buffer.be_value (reverse (Buffer.le_octets (Z.to_nat (b / 8)) v)) = v mod 2 ^ b).
    { rewrite be_value_reverse_le_octets. f_equal.
      destruct Hb as [->|[->| ->]]; reflexivity. }
    destruct be; rewrite Hval; apply signed_wrap; try assumption; lia.
Qed.

(** Round trip of the signed integers of 8, 16 and 32 bits, at any place
    of a buffer. *)
Theorem int_t_roundtrip_at (w : Writer.t) (post : Buffer.t) (b : Z) (be : bool) (v : Z) :
  b = 8 \/ b = 16 \/ b = 32 -> - 2 ^ (b - 1) <= v < 2 ^ (b - 1) ->
  exists w',
    Writer.int_t v (Some b) be w = (Return true, w')
    /\ Writer.length w' = Writer.length w + b / 8
    /\ Reader.int_t b be (Reader.mk (Writer.length w) (Writer.buffer w' ++ post))
       = (Return v, Reader.mk (Writer.length w + b / 8) (Writer.buffer w' ++ post)).
Proof.
  intros Hb Hv. destruct (int_octets_spec v b be Hb Hv) as (Hlen & Hval).
  assert (Hb' : 0 < b /\ b mod 8 = 0 /\ 0 < b / 8)
    by (destruct Hb as [->|[->| ->]]; repeat split; lia).
  destruct Hb' as (Hpos & Hmod & Hn).
  eexists. split; [apply Writer_int_t_spec; assumption|].
  unfold Writer.length, Writer.buffer, Buffer.length. cbn [Writer.m_buffer].
  split; [rewrite length_app; lia|].
  rewrite int_t_enough_octets; cbn [Reader.offset Reader.m_current_offset Reader.m_buffer];
    try assumption; try lia.
  2: { unfold Reader.length, Buffer.length. cbn [Reader.m_buffer]. rewrite !length_app. lia. }
  assert (Hs : take (Z.to_nat (b / 8))
                 (drop (Z.to_nat (Z.of_nat (List.length (Writer.m_buffer w))))
                    ((Writer.m_buffer w ++ int_octets v b be) ++ post))
               = int_octets v b be).
  { rewrite Nat2Z.id, <- app_assoc, drop_app_length.
    rewrite take_app_length'; [reflexivity|lia]. }
  cbv zeta. rewrite Hs.
  destruct Hb as [->|[->| ->]].
  - change (8 / 8 =? 1) with true. cbv iota. f_equal. f_equal.
    destruct be; [exact Hval|]. rewrite <- Hval at 2.
    unfold int_octets. change (Z.to_nat (8 / 8)) with 1%nat. reflexivity.
  - change (16 / 8 =? 1) with false. change (16 / 8 =? 2) with true. cbv iota. cbn [orb].
    rewrite Hval. reflexivity.
  - change (32 / 8 =? 1) with false. change (32 / 8 =? 2) with false.
    change (32 / 8 =? 4) with true. cbv iota. cbn [orb]. rewrite Hval. reflexivity.
Qed.

Lemma int_t_roundtrip_at_witness :
  exists w',
    Writer.int_t (-2) (Some 16) true (Writer.mk [7] 0) = (Return true, w')
    /\ Writer.length w' = Writer.length (Writer.mk [7] 0) + 16 / 8
    /\ Reader.int_t 16 true (Reader.mk (Writer.length (Writer.mk [7] 0)) (Writer.buffer w' ++ [9]))
       = (Return (-2),
          Reader.mk (Writer.length (Writer.mk [7] 0) + 16 / 8) (Writer.buffer w' ++ [9])).
Proof.
  apply (int_t_roundtrip_at (Writer.mk [7] 0) [9] 16 true (-2)); [right; left; reflexivity|lia].
Defined.

Lemma int_t_refused (b : Z) (be : bool) (v : Z) (w : Writer.t) (r : Reader.t) :
  0 < b <= 8192 -> b mod 8 = 0 ->
  ((b = 8 \/ b = 16 \/ b = 32) ->
   (v < - 2 ^ (b - 1) \/ 2 ^ (b - 1) <= v) ->
   Writer.int_t v (Some b) be w = (Throw (RangeError "ERR_OUT_OF_RANGE value"), w))
  /\ (b <> 8 -> b <> 16 -> b <> 32 ->
      Writer.int_t v (Some b) be w = (Return false, w)
      /\ (0 <= Reader.offset r -> Reader.offset r + b / 8 <= Reader.length r ->
          Reader.int_t b be r
          = (Throw (Error "cannot read int64_t"),
             Reader.mk (Reader.offset r + b / 8) (Reader.m_buffer r)))).
Proof.
  intros [Hb _] Hm. split.
  - intros Hw Hv. rewrite int_t_explicit_width by assumption. cbv zeta.
    assert (Hout : forall width, 8 * width = b ->
              ((v <? - 2 ^ (8 * width - 1)) || (2 ^ (8 * width - 1) - 1 <? v)) = true).
    { intros width <-. apply orb_true_iff.
      destruct Hv as [Hv|Hv]; [left|right]; apply Z.ltb_lt; lia. }
    destruct Hw as [->|[->| ->]].
    + change (8 / 8 =? 1) with true. cbv iota.
      unfold Buffer.writeIntLE. rewrite (Hout 1) by reflexivity. reflexivity.
    + change (16 / 8 =? 1) with false. change (16 / 8 =? 2) with true. cbv iota.
      unfold Buffer.writeIntLE, Buffer.writeIntBE. rewrite (Hout 2) by reflexivity.
      destruct be; reflexivity.
    + change (32 / 8 =? 1) with false. change (32 / 8 =? 2) with false.
      change (32 / 8 =? 4) with true. cbv iota.
      unfold Buffer.writeIntLE, Buffer.writeIntBE. rewrite (Hout 4) by reflexivity.
      destruct be; reflexivity.
  - intros H8 H16 H32.
    assert (E1 : (b / 8 =? 1) = false) by (apply Z.eqb_neq; divlia).
    assert (E2 : (b / 8 =? 2) = false) by (apply Z.eqb_neq; divlia).
    assert (E4 : (b / 8 =? 4) = false) by (apply Z.eqb_neq; divlia).
    split.
    + rewrite int_t_explicit_width by assumption. cbv zeta. rewrite E1, E2, E4. reflexivity.
    + intros Ho Hlen. rewrite int_t_enough_octets by assumption. cbv zeta.
      rewrite E1, E2, E4. reflexivity.
Qed.

(** What [int_t] does with a value or a width it cannot write or read: a
    value outside the signed range of 8, 16 or 32 bits is a [RangeError]
    and nothing is written; another width that is a positive multiple of 8
    makes the writer return [false] with nothing written, and makes the
    reader throw after it has moved the cursor past the octets. *)
Theorem int_t_unsupported (b : Z) (be : bool) (v : Z) (w : Writer.t) (r : Reader.t) :
  0 < b <= 8192 -> b mod 8 = 0 ->
  ((b = 8 \/ b = 16 \/ b = 32) ->
   (v < - 2 ^ (b - 1) \/ 2 ^ (b - 1) <= v) ->
   Writer.int_t v (Some b) be w = (Throw (RangeError "ERR_OUT_OF_RANGE value"), w))
  /\ (b <> 8 -> b <> 16 -> b <> 32 ->
      Writer.int_t v (Some b) be w = (Return false, w)
      /\ (0 <= Reader.offset r -> Reader.offset r + b / 8 <= Reader.length r ->
          Reader.int_t b be r
          = (Throw (Error "cannot read int64_t"),
             Reader.mk (Reader.offset r + b / 8) (Reader.m_buffer r)))).
Proof. exact (int_t_refused b be v w r). Qed.

Lemma int_t_unsupported_witness :
  Writer.int_t 5 (Some 64) false Writer.new = (Return false, Writer.new)
  /\ Reader.int_t 64 false (Reader.mk 0 [5; 0; 0; 0; 0; 0; 0; 0; 9])
     = (Throw (Error "cannot read int64_t"), Reader.mk 8 [5; 0; 0; 0; 0; 0; 0; 0; 9]).
Proof.
  destruct (int_t_unsupported 64 false 5 Writer.new (Reader.mk 0 [5; 0; 0; 0; 0; 0; 0; 0; 9])
              ltac:(lia) eq_refl) as [_ H].
  destruct (H ltac:(lia) ltac:(lia) ltac:(lia)) as [Hw Hr].
  split; [exact Hw|]. apply Hr; [simpl; lia|vm_compute; discriminate].
Defined.

Lemma determineBits_negative v : v < 0 -> Writer.determineBits v = Return 8.
Proof.
  intros Hv. unfold Writer.determineBits, Writer.bytes_table. cbn [Writer.determineBits_loop].
  destruct (-1 <? v) eqn:E; [apply Z.ltb_lt in E; lia|].
  change (Z.abs (2 ^ (1 * 8 - 1) - 1)) with 127.
  destruct (v <=? 127) eqn:E1; [reflexivity|apply Z.leb_gt in E1; lia].
Qed.

Lemma int_t_without_width v be w :
  Writer.int_t v None be w
  = match Writer.determineBits v with
    | Return b => Writer.int_t v (Some b) be w
    | Throw e => (Throw e, w)
    end.
Proof.
  destruct (Writer.determineBits v) as [b|e] eqn:Hd.
  - assert (Hb : (b =? 0) = false).
    { apply Z.eqb_neq. intros ->.
      destruct (Z.lt_ge_cases v 0) as [Hneg|Hnn].
      - rewrite determineBits_negative in Hd by exact Hneg. discriminate.
      - pose proof (determineBits_loop_spec v Writer.bytes_table Hnn bytes_table_sorted) as H.
        fold (Writer.determineBits v) in H. rewrite Hd in H. destruct H as (Hin & _).
        simpl in Hin. intuition discriminate. }
    unfold Writer.int_t, Writer.falsy. cbv beta iota zeta. rewrite Hb.
    cbn [negb andb]. unfold bind at 1. unfold lift at 1. rewrite Hd.
    assert (Hrem : Z.rem b 8 = 0).
    { destruct (Z.lt_ge_cases v 0) as [Hneg|Hnn].
      - rewrite determineBits_negative in Hd by exact Hneg. injection Hd as <-. reflexivity.
      - pose proof (determineBits_loop_spec v Writer.bytes_table Hnn bytes_table_sorted) as H.
        fold (Writer.determineBits v) in H. rewrite Hd in H. destruct H as (Hin & _).
        simpl in Hin. intuition (subst; reflexivity). }
    rewrite Hrem. cbn [Z.eqb negb]. unfold bind at 2. unfold ret at 1. reflexivity.
  - unfold Writer.int_t, Writer.falsy. cbv beta iota zeta. cbn [negb andb].
    unfold bind at 1. unfold lift at 1. rewrite Hd. reflexivity.
Qed.

Lemma determineBits_between v lo b :
  In (lo, b) [(0, 8); (256, 16); (65536, 32)] -> lo <= v <= 2 ^ b - 1 ->
  Writer.determineBits v = Return b.
Proof.
  intros Hin Hv. unfold Writer.determineBits, Writer.bytes_table.
  cbn [Writer.determineBits_loop].
  simpl in Hin. destruct Hin as [[= <- <-]|[[= <- <-]|[[= <- <-]|[]]]];
    change (2 ^ 8) with 256 in *; change (2 ^ 16) with 65536 in *;
    change (2 ^ 32) with 4294967296 in *;
    (destruct (-1 <? v) eqn:E; [clear E|apply Z.ltb_ge in E; lia]);
    change (2 ^ (1 * 8)) with 256; change (2 ^ (2 * 8)) with 65536;
    change (2 ^ (4 * 8)) with 4294967296;
    repeat match goal with
      | |- context [v <=? ?c] =>
          let E := fresh "E" in
          destruct (v <=? c) eqn:E;
          [apply Z.leb_le in E|apply Z.leb_gt in E]; try lia
      end; reflexivity.
Qed.

(** The signed writer without a width: [determineBits] sizes a value from
    0 on by the unsigned bounds and every negative value at 8 bits, so the
    values written are those of -128..127, 256..32767 and 65536..2^31-1;
    the values in between overflow the signed width chosen for them, and
    from 2^32 on the width chosen is one [int_t] does not write. *)
Theorem int_t_auto_sizing (v : Z) (be : bool) (w : Writer.t) :
  (-128 <= v <= 127 -> Writer.int_t v None be w = Writer.int_t v (Some 8) be w)
  /\ (256 <= v <= 32767 -> Writer.int_t v None be w = Writer.int_t v (Some 16) be w)
  /\ (65536 <= v <= 2147483647 -> Writer.int_t v None be w = Writer.int_t v (Some 32) be w)
  /\ (v < -128 \/ 128 <= v <= 255 \/ 32768 <= v <= 65535 \/ 2147483648 <= v <= 4294967295 ->
      Writer.int_t v None be w = (Throw (RangeError "ERR_OUT_OF_RANGE value"), w))
  /\ (4294967296 <= v <= 2 ^ 8192 - 1 -> Writer.int_t v None be w = (Return false, w))
  /\ (2 ^ 8192 <= v ->
      Writer.int_t v None be w = (Throw (RangeError "value is out of range"), w)).
Proof.
  rewrite int_t_without_width.
  assert (H8 : v <= 255 -> Writer.determineBits v = Return 8).
  { intros Hv. destruct (Z.lt_ge_cases v 0) as [Hneg|Hnn].
    - apply determineBits_negative. exact Hneg.
    - apply (determineBits_between v 0 8); [left; reflexivity|change (2 ^ 8) with 256; lia]. }
  assert (H16 : 256 <= v <= 65535 -> Writer.determineBits v = Return 16).
  { intros Hv. apply (determineBits_between v 256 16);
      [right; left; reflexivity|change (2 ^ 16) with 65536; lia]. }
  assert (H32 : 65536 <= v <= 4294967295 -> Writer.determineBits v = Return 32).
  { intros Hv. apply (determineBits_between v 65536 32);
      [right; right; left; reflexivity|change (2 ^ 32) with 4294967296; lia]. }
  split; [intros Hv; rewrite H8 by lia; reflexivity|].
  split; [intros Hv; rewrite H16 by lia; reflexivity|].
  split; [intros Hv; rewrite H32 by lia; reflexivity|].
  split.
  { intros [Hv|[Hv|[Hv|Hv]]].
    - rewrite H8 by lia.
      apply (int_t_refused 8 be v w (Reader.mk 0 [])); [lia|reflexivity|left; reflexivity|].
      left. change (2 ^ (8 - 1)) with 128. lia.
    - rewrite H8 by lia.
      apply (int_t_refused 8 be v w (Reader.mk 0 [])); [lia|reflexivity|left; reflexivity|].
      right. change (2 ^ (8 - 1)) with 128. lia.
    - rewrite H16 by lia.
      apply (int_t_refused 16 be v w (Reader.mk 0 []));
        [lia|reflexivity|right; left; reflexivity|].
      right. change (2 ^ (16 - 1)) with 32768. lia.
    - rewrite H32 by lia.
      apply (int_t_refused 32 be v w (Reader.mk 0 []));
        [lia|reflexivity|right; right; reflexivity|].
      right. change (2 ^ (32 - 1)) with 2147483648. lia. }
  pose proof (determineBits_loop_spec v Writer.bytes_table) as Hspec.
  fold (Writer.determineBits v) in Hspec.
  split.
  - intros Hv. specialize (Hspec ltac:(lia) bytes_table_sorted).
    destruct (Writer.determineBits v) as [b|e].
    + destruct Hspec as (Hin & Hfit & _). unfold fits in Hfit.
      assert (Hb : 0 < b <= 8192 /\ b mod 8 = 0).
      { simpl in Hin.
        destruct Hin as [<-|[<-|[<-|[<-|[<-|[<-|[<-|[<-|[<-|[<-|[<-|[]]]]]]]]]]]];
          split; first [lia|reflexivity]. }
      destruct Hb as (Hpos & Hmod).
      assert (N8 : b <> 8) by (intros ->; change (2 ^ 8) with 256 in Hfit; lia).
      assert (N16 : b <> 16) by (intros ->; change (2 ^ 16) with 65536 in Hfit; lia).
      assert (N32 : b <> 32) by (intros ->; change (2 ^ 32) with 4294967296 in Hfit; lia).
      apply (int_t_refused b be v w (Reader.mk 0 [])); assumption.
    + destruct Hspec as (_ & Hnone). exfalso.
      apply (Hnone 8192); [simpl; tauto|]. unfold fits. lia.
  - intros Hv. specialize (Hspec ltac:(assert (0 < 2 ^ 8192) by reflexivity; lia) bytes_table_sorted).
    destruct (Writer.determineBits v) as [b|e].
    + destruct Hspec as (Hin & Hfit & _). unfold fits in Hfit. exfalso.
      assert (Hle : 2 ^ b <= 2 ^ 8192).
      { apply Z.pow_le_mono_r; [lia|]. simpl in Hin.
        destruct Hin as [<-|[<-|[<-|[<-|[<-|[<-|[<-|[<-|[<-|[<-|[<-|[]]]]]]]]]]]]; lia. }
      lia.
    + destruct Hspec as (-> & _). reflexivity.
Qed.

Lemma int_t_auto_sizing_witness :
  Writer.int_t 300 None true Writer.new = Writer.int_t 300 (Some 16) true Writer.new
  /\ Writer.int_t 200 None true Writer.new
     = (Throw (RangeError "ERR_OUT_OF_RANGE value"), Writer.new)
  /\ Writer.int_t 4294967296 None true Writer.new = (Return false, Writer.new).
Proof.
  split; [|split].
  - apply (int_t_auto_sizing 300 true Writer.new). lia.
  - apply (int_t_auto_sizing 200 true Writer.new). lia.
  - apply (int_t_auto_sizing 4294967296 true Writer.new).
    split; [lia|]. assert (2 ^ 33 <= 2 ^ 8192) by (apply Z.pow_le_mono_r; lia).
    change (2 ^ 33) with 8589934592 in *. lia.
Defined.

(** ** Reading timestamps *)

(** [Reader.time_t] on eight octets inside the buffer. *)
Lemma Reader_time_t_spec (be : bool) (r : Reader.t) :
  0 <= Reader.offset r -> Reader.offset r + 8 <= Reader.length r ->
  let o := Z.to_nat (Reader.offset r) in
  let s := take 8 (drop o (Reader.buffer r)) in
  Forall octet s ->
  Reader.time_t be r
  = (Return (newDate (Buffer.be_value (if be then reverse s else s) * 1000)),
     Reader.mk (Reader.offset r + 8)
       (if be then take o (Reader.buffer r) ++ reverse s ++ drop (o + 8) (Reader.buffer r)
        else Reader.buffer r)).
Proof.
  intros Ho Hlen o s Hs. destruct r as [off buf].
  unfold Reader.offset, Reader.length, Reader.buffer, Buffer.length in *.
  cbn [Reader.m_current_offset Reader.m_buffer] in *.
  assert (Hslen : List.length s = 8%nat).
  { unfold s. rewrite length_take, length_drop. lia. }
  unfold Reader.time_t. unfold bind at 1. unfold get at 1.
  unfold bind at 1. unfold Reader.bytes at 1.
  unfold bind at 1. unfold get at 1. unfold bind at 1. unfold Reader.advance at 1.
  unfold bind at 1. unfold get at 1. unfold ret at 1.
  unfold Reader.offset. cbn [Reader.m_current_offset Reader.m_buffer].
  rewrite slice_inside by (unfold Buffer.length; lia).
  change (Z.to_nat 8) with 8%nat. fold o. fold s.
  destruct be.
  - unfold bind at 1. unfold bind at 1. unfold bind at 1. unfold lift at 1.
    rewrite (swap64_8 s Hslen). unfold ret at 1.
    cbn [Reader.m_current_offset Reader.m_buffer].
    unfold bind, lift, ret.
    rewrite parse16_toString_hex by (apply Forall_reverse; exact Hs).
    unfold Buffer.write_back, Buffer.clamp, Buffer.length.
    destruct (off <? 0) eqn:E; [apply Z.ltb_lt in E; lia|]. clear E.
    rewrite Z.min_l by lia. fold o. rewrite length_reverse, Hslen. reflexivity.
  - unfold bind, lift, ret. rewrite parse16_toString_hex by exact Hs. reflexivity.
Qed.

(** [Reader.time_t] on eight octets inside the buffer: the date of the
    second they spell, big-endian without [be] and little-endian with it.
    With [be] the read is not free of effect on the data: the eight octets
    are left reversed in the buffer of the reader. *)
Theorem time_t_read_in_place (be : bool) (r : Reader.t) :
  0 <= Reader.offset r -> Reader.offset r + 8 <= Reader.length r ->
  let o := Z.to_nat (Reader.offset r) in
  let s := take 8 (drop o (Reader.buffer r)) in
  Forall octet s ->
  Reader.time_t be r
  = (Return (newDate (Buffer.be_value (if be then reverse s else s) * 1000)),
     Reader.mk (Reader.offset r + 8)
       (if be then take o (Reader.buffer r) ++ reverse s ++ drop (o + 8) (Reader.buffer r)
        else Reader.buffer r)).
Proof. exact (Reader_time_t_spec be r). Qed.

Lemma time_t_read_in_place_witness :
  Reader.time_t true (Reader.mk 1 [9; 28; 106; 3; 94; 0; 0; 0; 0; 7])
  = (Return (DateOf 1577282076000), Reader.mk 9 [9; 0; 0; 0; 0; 94; 3; 106; 28; 7]).
Proof.
  apply (time_t_read_in_place true (Reader.mk 1 [9; 28; 106; 3; 94; 0; 0; 0; 0; 7]));
    [simpl; lia|vm_compute; discriminate|].
  repeat (constructor; [unfold octet; lia|]). constructor.
Defined.

(** The octets [Writer.time_t] appends. *)
Lemma Writer_time_t_spec ms be w :
  0 <= ms <= 8640000000000000 ->
  Writer.time_t (DateOf ms) be w
  = (Return tt,
     Writer.mk (Writer.m_buffer w ++ uint_octets (ms / 1000) 64 (negb be)) (Writer.m_readIndex w)).
Proof.
  intros Hms.
  assert (Hx : 0 <= ms / 1000 <= 2 ^ 64 - 1) by (change (2 ^ 64) with 18446744073709551616; divlia).
  destruct (writeUIntBE_spec (ms / 1000) 8 ltac:(lia)) as (Hlen & _ & _).
  { change (256 ^ 8) with (2 ^ 64). lia. }
  unfold Buffer.length in Hlen.
  assert (Hlen' : List.length (Writer.writeUIntBE (ms / 1000) 8) = 8%nat) by lia.
  unfold Writer.time_t, uint_octets. change (64 / 8) with 8.
  fold (Writer.writeUIntBE (ms / 1000) 8) in *.
  unfold Writer.writeUIntBE in *. change (8 * 2) with 16 in *.
  destruct be; cbn [negb]; unfold bind, lift.
  - rewrite (swap64_8 _ Hlen'). reflexivity.
  - reflexivity.
Qed.

(** Round trip of the timestamps: a date from the epoch on is written as
    eight octets and, read with the same flag where it was written, comes
    back truncated to the second, with the cursor after the eight octets. *)
Theorem time_t_roundtrip_at (w : Writer.t) (post : Buffer.t) (ms : Z) (be : bool) :
  0 <= ms <= 8640000000000000 ->
  exists w' r',
    Writer.time_t (DateOf ms) be w = (Return tt, w')
    /\ Writer.length w' = Writer.length w + 8
    /\ Reader.time_t be (Reader.mk (Writer.length w) (Writer.buffer w' ++ post))
       = (Return (DateOf (ms / 1000 * 1000)), r')
    /\ Reader.offset r' = Writer.length w + 8.
Proof.
  intros Hms.
  assert (Hx : 0 <= ms / 1000 <= 2 ^ 64 - 1) by (change (2 ^ 64) with 18446744073709551616; divlia).
  destruct (uint_octets_spec (ms / 1000) 64 (negb be) ltac:(lia) eq_refl Hx) as (Hlen & Hoct & Hval).
  change (64 / 8) with 8 in Hlen. unfold Buffer.length in Hlen.
  eexists. eexists. split; [apply Writer_time_t_spec; exact Hms|].
  unfold Writer.length, Writer.buffer, Buffer.length. cbn [Writer.m_buffer].
  set (octs := uint_octets (ms / 1000) 64 (negb be)) in *.
  split; [rewrite length_app; lia|].
  assert (Hs : take 8 (drop (Z.to_nat (Z.of_nat (List.length (Writer.m_buffer w))))
                         ((Writer.m_buffer w ++ octs) ++ post)) = octs).
  { rewrite Nat2Z.id, <- app_assoc, drop_app_length.
    rewrite take_app_length'; [reflexivity|lia]. }
  rewrite Reader_time_t_spec;
    unfold Reader.offset, Reader.length, Reader.buffer, Buffer.length;
    cbn [Reader.m_current_offset Reader.m_buffer]; try lia.
  - cbv zeta. rewrite Hs.
    assert (Hv : Buffer.be_value (if be then reverse octs else octs) = ms / 1000).
    { destruct be; cbn [negb] in Hval; exact Hval. }
    rewrite Hv. unfold newDate.
    destruct (_ <=? _) eqn:E; [|apply Z.leb_gt in E; divlia].
    split; [reflexivity|]. reflexivity.
  - rewrite !length_app. lia.
  - cbv zeta. rewrite Hs. exact Hoct.
Qed.

Lemma time_t_roundtrip_at_witness :
  exists w' r',
    Writer.time_t (DateOf 1580494652032) true (Writer.mk [7] 0) = (Return tt, w')
    /\ Writer.length w' = Writer.length (Writer.mk [7] 0) + 8
    /\ Reader.time_t true (Reader.mk (Writer.length (Writer.mk [7] 0)) (Writer.buffer w' ++ [9]))
       = (Return (DateOf (1580494652032 / 1000 * 1000)), r')
    /\ Reader.offset r' = Writer.length (Writer.mk [7] 0) + 8.
Proof. apply (time_t_roundtrip_at (Writer.mk [7] 0) [9] 1580494652032 true). lia. Defined.

(** ** The cursor after [compact] *)

Lemma slice_from_nonneg b o :
  0 <= o -> Buffer.slice_from b o = drop (Z.to_nat o) b.
Proof.
  intros Ho. unfold Buffer.slice_from, Buffer.slice, Buffer.clamp, Buffer.length.
  destruct (o <? 0) eqn:E; [apply Z.ltb_lt in E; lia|].
  destruct (Z.of_nat (List.length b) <? 0) eqn:E'; [apply Z.ltb_lt in E'; lia|].
  rewrite (Z.min_l (Z.of_nat _) (Z.of_nat _)) by lia.
  destruct (Z.le_gt_cases o (Z.of_nat (List.length b))) as [Hle|Hgt].
  - rewrite Z.min_l by lia. apply take_ge. rewrite length_drop. lia.
  - rewrite Z.min_r by lia. rewrite Z.sub_diag. simpl.
    rewrite Nat2Z.id. rewrite !drop_ge by lia. reflexivity.
Qed.

Lemma slice_nonneg b o n :
  0 <= o -> 0 <= n -> Buffer.slice b o (o + n) = take (Z.to_nat n) (drop (Z.to_nat o) b).
Proof.
  intros Ho Hn. unfold Buffer.slice, Buffer.clamp, Buffer.length.
  destruct (o <? 0) eqn:E; [apply Z.ltb_lt in E; lia|].
  destruct (o + n <? 0) eqn:E'; [apply Z.ltb_lt in E'; lia|].
  destruct (Z.le_gt_cases o (Z.of_nat (List.length b))) as [Hle|Hgt].
  - rewrite (Z.min_l o) by lia.
    destruct (Z.le_gt_cases (o + n) (Z.of_nat (List.length b))) as [Hle'|Hgt'].
    + rewrite Z.min_l by lia. f_equal. lia.
    + rewrite Z.min_r by lia. rewrite !take_ge; [reflexivity|rewrite length_drop; lia..].
  - rewrite !Z.min_r by lia. rewrite Z.sub_diag. simpl.
    rewrite Nat2Z.id. rewrite !drop_ge by lia. rewrite !take_nil. reflexivity.
Qed.

(** [compact()] drops what was read and nothing else: the cursor is at 0,
    the unread part of the buffer and the unread count are what they were,
    and a read of [n] octets returns what it would have returned. *)
Theorem compact_keeps_unread (r : Reader.t) (n : Z) :
  0 <= Reader.offset r -> 0 <= n ->
  let r' := snd (Reader.compact None r) in
  Reader.offset r' = 0
  /\ Reader.buffer r' = Reader.unreadBuffer r
  /\ Reader.unreadBuffer r' = Reader.unreadBuffer r
  /\ Reader.unreadBytes r' = Reader.unreadBytes r
  /\ Reader.unreadBytes r = Buffer.length (Reader.unreadBuffer r)
  /\ fst (Reader.bytes n r') = fst (Reader.bytes n r).
Proof.
  intros Ho Hn. destruct r as [o buf]. cbv zeta.
  unfold Reader.compact, Reader.unreadBuffer, Reader.unreadBytes, Reader.length,
    Reader.offset, Reader.buffer in *.
  cbn [Reader.m_current_offset Reader.m_buffer snd] in *.
  rewrite !slice_from_nonneg by lia. change (Z.to_nat 0) with 0%nat. rewrite drop_0.
  assert (Hl : Buffer.length (drop (Z.to_nat o) buf) = Z.max 0 (Buffer.length buf - o)).
  { unfold Buffer.length. rewrite length_drop. lia. }
  split; [reflexivity|]. split; [reflexivity|]. split; [reflexivity|].
  rewrite Z.sub_0_r, Hl.
  split; [|split].
  - repeat match goal with |- context [?a <=? ?b] => destruct (Z.leb_spec a b) end; lia.
  - repeat match goal with |- context [?a <=? ?b] => destruct (Z.leb_spec a b) end; lia.
  - unfold Reader.bytes, bind, get, Reader.advance, ret, Reader.offset.
    cbn [Reader.m_current_offset Reader.m_buffer fst].
    f_equal. rewrite (slice_nonneg _ 0 n), (slice_nonneg _ o n) by lia.
    change (Z.to_nat 0) with 0%nat. rewrite drop_0. reflexivity.
Qed.

Lemma compact_keeps_unread_witness :
  let r := Reader.mk 2 [1; 2; 3; 4; 5] in
  let r' := snd (Reader.compact None r) in
  Reader.offset r' = 0
  /\ Reader.buffer r' = Reader.unreadBuffer r
  /\ Reader.unreadBuffer r' = Reader.unreadBuffer r
  /\ Reader.unreadBytes r' = Reader.unreadBytes r
  /\ Reader.unreadBytes r = Buffer.length (Reader.unreadBuffer r)
  /\ fst (Reader.bytes 2 r') = fst (Reader.bytes 2 r).
Proof. apply (compact_keeps_unread (Reader.mk 2 [1; 2; 3; 4; 5]) 2); simpl; lia. Defined.

(** ** What a read leaves of the reader *)

Lemma varint_loop_buffer fuel :
  forall start peek r,
    Reader.m_buffer (snd (Reader.varint_loop fuel start peek r)) = Reader.m_buffer r.
Proof.
  induction fuel as [|fuel IH]; intros start peek r; [reflexivity|].
  cbn [Reader.varint_loop]. unfold bind at 1. unfold get at 1.
  unfold bind at 1. unfold lift at 1.
  destruct (Buffer.readUInt8 _ _) as [b|e]; [|reflexivity].
  destruct (b <? 128).
  - unfold bind, get, Reader.advance, ret, lift, Reader.set_offset.
    destruct peek; cbn [Reader.m_buffer Reader.m_current_offset];
      destruct (Varint.decode _); reflexivity.
  - unfold bind at 1. unfold Reader.advance at 1. rewrite IH. reflexivity.
Qed.

Lemma uint_t_buffer bits be r :
  Reader.m_buffer (snd (Reader.uint_t bits be r)) = Reader.m_buffer r.
Proof.
  unfold Reader.uint_t. destruct (negb _); [reflexivity|].
  unfold bind at 1. unfold get at 1.
  destruct (_ <? _); [reflexivity|].
  unfold bind, get, Reader.advance, lift. cbn [Reader.m_buffer Reader.m_current_offset].
  destruct (if be then _ else _); reflexivity.
Qed.

Lemma levin_loop_buffer count :
  forall i value r,
    Reader.m_buffer (snd (Reader.levin_loop count i value r)) = Reader.m_buffer r.
Proof.
  induction count as [|count IH]; intros i value r; [reflexivity|].
  cbn [Reader.levin_loop]. unfold bind at 1.
  pose proof (uint_t_buffer 8 false r) as Hu. unfold Reader.uint8_t.
  destruct (Reader.uint_t 8 false r) as [[b|e] r']; cbn [snd] in Hu.
  - rewrite IH. exact Hu.
  - exact Hu.
Qed.

(** No read but [time_t(true)] touches the data: after [bytes], [hex],
    [hash], [skip], [uint_t], [int_t], [varint] and [time_t(false)], also
    after one that threw, the buffer of the reader is what it was, so that
    [reset()] brings the reader back to the start of the same data. *)
Theorem reads_keep_buffer (r : Reader.t) (n bits : Z) (be peek levin : bool) :
  let kept (A : Type) (op : M Reader.t A) := Reader.buffer (snd (op r)) = Reader.buffer r in
  kept _ (Reader.bytes n) /\ kept _ (Reader.hex n) /\ kept _ (Reader.hash n)
  /\ kept _ (Reader.skip n) /\ kept _ (Reader.uint_t bits be) /\ kept _ (Reader.int_t bits be)
  /\ kept _ (Reader.varint peek levin) /\ kept _ (Reader.time_t false).
Proof.
  cbv zeta. unfold Reader.buffer.
  split; [reflexivity|]. split; [reflexivity|]. split; [reflexivity|]. split; [reflexivity|].
  split; [apply uint_t_buffer|]. split; [|split].
  - unfold Reader.int_t. destruct (negb _); [reflexivity|].
    unfold bind at 1. unfold get at 1.
    destruct (_ <? _); [reflexivity|].
    unfold bind, get, Reader.advance, lift, throw. cbn [Reader.m_buffer Reader.m_current_offset].
    repeat match goal with
           | |- context [if ?c then _ else _] => destruct c
           | |- context [match ?c with Return _ => _ | Throw _ => _ end] => destruct c
           end; reflexivity.
  - unfold Reader.varint. unfold bind at 1. unfold get at 1.
    destruct levin; cbn [negb].
    + unfold bind at 1. pose proof (uint_t_buffer 8 false r) as Hu. unfold Reader.uint8_t.
      destruct (Reader.uint_t 8 false r) as [[b|e] r']; cbn [snd] in Hu; [|exact Hu].
      unfold bind at 1.
      pose proof (levin_loop_buffer
                    (if JS.band b 3 =? 0 then 0%nat else if JS.band b 3 =? 1 then 1%nat
                     else if JS.band b 3 =? 2 then 3%nat else if JS.band b 3 =? 3 then 7%nat
                     else 0%nat) 1 b r') as Hl.
      destruct (Reader.levin_loop _ _ _ _) as [[v|e] r'']; unfold ret; cbn [snd] in Hl |- *; congruence.
    + apply varint_loop_buffer.
  - unfold Reader.time_t, Reader.bytes, bind, get, Reader.advance, ret, lift.
    cbn [Reader.m_buffer Reader.m_current_offset].
    destruct (BigInteger.parse16 _); reflexivity.
Qed.

(** ** Raw octets, hexadecimal texts and hashes, written and read back *)

Lemma hexchar_unhex c d : Buffer.unhex c = Some d -> Buffer.hexchar d = lower_hex_char c.
Proof.
  destruct c as [[] [] [] [] [] [] [] []]; vm_compute; intros [=]; subst; reflexivity.
Qed.

Lemma toString_hex_from_hex s :
  all_hex s = true -> Nat.even (String.length s) = true ->
  Buffer.toString_hex (Buffer.from_hex s) = lower_hex s.
Proof.
  induction s as [|a|a b s IH] using string_pair_ind.
  - reflexivity.
  - intros _ [=].
  - cbn [all_hex Buffer.from_hex String.length Nat.even lower_hex].
    destruct (Buffer.unhex a) as [x|] eqn:Ea; [|discriminate].
    destruct (Buffer.unhex b) as [y|] eqn:Eb; [|discriminate].
    intros Hall Heven.
    pose proof (unhex_digit _ _ Ea) as Hx. pose proof (unhex_digit _ _ Eb) as Hy.
    rewrite lor_shiftl_4 by assumption. cbn [Buffer.toString_hex].
    unfold digit16 in Hx, Hy.
    replace ((x * 16 + y) / 16) with x by divlia.
    replace ((x * 16 + y) mod 16) with y by divlia.
    rewrite (hexchar_unhex _ _ Ea), (hexchar_unhex _ _ Eb), IH by assumption. reflexivity.
Qed.

Lemma Reader_bytes_inside n r :
  0 <= Reader.offset r -> 0 <= n -> Reader.offset r + n <= Reader.length r ->
  Reader.bytes n r
  = (Return (take (Z.to_nat n) (drop (Z.to_nat (Reader.offset r)) (Reader.buffer r))),
     Reader.mk (Reader.offset r + n) (Reader.buffer r)).
Proof.
  intros Ho Hn Hlen. destruct r as [o buf]. unfold Reader.offset, Reader.length, Reader.buffer in *.
  cbn [Reader.m_current_offset Reader.m_buffer] in *.
  unfold Reader.bytes, bind, get, Reader.advance, ret, Reader.offset.
  cbn [Reader.m_current_offset Reader.m_buffer].
  rewrite slice_inside by lia. reflexivity.
Qed.

Lemma Reader_hex_bytes n r :
  Reader.hex n r = (let '(c, r') := Reader.bytes n r in
                    (match c with Return b => Return (Buffer.toString_hex b) | Throw e => Throw e end, r')).
Proof. reflexivity. Qed.

Lemma Reader_hash_bytes n r :
  Reader.hash n r = (let '(c, r') := Reader.bytes n r in
                     (match c with Return b => Return (Buffer.toString_hex b) | Throw e => Throw e end, r')).
Proof. reflexivity. Qed.

Lemma written_slice (pre b post : Buffer.t) :
  take (Z.to_nat (Buffer.length b)) (drop (Z.to_nat (Buffer.length pre)) ((pre ++ b) ++ post)) = b.
Proof.
  unfold Buffer.length. rewrite !Nat2Z.id, <- app_assoc, drop_app_length.
  rewrite take_app_length. reflexivity.
Qed.

Lemma read_written_bytes (pre b post : Buffer.t) :
  Reader.bytes (Buffer.length b) (Reader.mk (Buffer.length pre) ((pre ++ b) ++ post))
  = (Return b, Reader.mk (Buffer.length pre + Buffer.length b) ((pre ++ b) ++ post)).
Proof.
  rewrite Reader_bytes_inside.
  - unfold Reader.offset, Reader.buffer. cbn [Reader.m_current_offset Reader.m_buffer].
    rewrite written_slice. reflexivity.
  - unfold Reader.offset, Buffer.length. simpl. lia.
  - unfold Buffer.length. lia.
  - unfold Reader.offset, Reader.length, Buffer.length. simpl. rewrite !length_app. lia.
Qed.

(** Whatever [write] is handed as a buffer, [bytes] reads it back, octet
    for octet, from the position where it was written, whatever follows. *)
Theorem bytes_roundtrip_at (w : Writer.t) (b post : Buffer.t) :
  exists w',
    Writer.write (Writer.PBuffer b) w = (Return true, w')
    /\ Reader.bytes (Buffer.length b) (Reader.mk (Writer.length w) (Writer.buffer w' ++ post))
       = (Return b, Reader.mk (Writer.length w + Buffer.length b) (Writer.buffer w' ++ post)).
Proof.
  eexists. split; [reflexivity|].
  unfold Writer.length, Writer.buffer, Buffer.concat. cbn [Writer.m_buffer].
  apply read_written_bytes.
Qed.

(** A text of hexadecimal digits of even length, written with [hex], is
    read back by [hex] in lower case. *)
Theorem hex_roundtrip_at (w : Writer.t) (post : Buffer.t) (s : string) :
  all_hex s = true -> Nat.even (String.length s) = true ->
  exists w',
    Writer.hex (Writer.PString s) w = (Return true, w')
    /\ Reader.hex (Z.of_nat (String.length s) / 2)
         (Reader.mk (Writer.length w) (Writer.buffer w' ++ post))
       = (Return (lower_hex s),
          Reader.mk (Writer.length w + Z.of_nat (String.length s) / 2) (Writer.buffer w' ++ post)).
Proof.
  intros Hall Heven. eexists. split; [reflexivity|].
  unfold Writer.length, Writer.buffer, Buffer.concat. cbn [Writer.m_buffer].
  assert (Hlen : Z.of_nat (String.length s) / 2 = Buffer.length (Buffer.from_hex s)).
  { unfold Buffer.length. rewrite length_from_hex_all by exact Hall.
    rewrite Nat.div2_div, Nat2Z.inj_div. reflexivity. }
  rewrite Hlen, Reader_hex_bytes, read_written_bytes.
  rewrite toString_hex_from_hex by assumption. reflexivity.
Qed.

Lemma hex_roundtrip_at_witness :
  exists w',
    Writer.hex (Writer.PString "0aFF") (Writer.mk [7] 0) = (Return true, w')
    /\ Reader.hex (Z.of_nat (String.length "0aFF") / 2)
         (Reader.mk (Writer.length (Writer.mk [7] 0)) (Writer.buffer w' ++ [9]))
       = (Return (lower_hex "0aFF"),
          Reader.mk (Writer.length (Writer.mk [7] 0) + Z.of_nat (String.length "0aFF") / 2)
            (Writer.buffer w' ++ [9])).
Proof. apply (hex_roundtrip_at (Writer.mk [7] 0) [9] "0aFF"); reflexivity. Defined.

(** A hash given as 64 hexadecimal digits is written as 32 octets and
    read back by [hash] in lower case. *)
Theorem hash_roundtrip_at (w : Writer.t) (post : Buffer.t) (s : string) :
  String.length s = 64%nat -> all_hex s = true ->
  exists w',
    Writer.hash (Writer.PString s) w = (Return true, w')
    /\ Writer.length w' = Writer.length w + 32
    /\ Reader.hash 32 (Reader.mk (Writer.length w) (Writer.buffer w' ++ post))
       = (Return (lower_hex s), Reader.mk (Writer.length w + 32) (Writer.buffer w' ++ post)).
Proof.
  intros Hlen Hall.
  assert (H32 : Buffer.length (Buffer.from_hex s) = 32).
  { unfold Buffer.length. rewrite length_from_hex_all, Hlen by exact Hall. reflexivity. }
  unfold Writer.hash. rewrite Hlen. cbn [Z.of_nat Pos.of_succ_nat Pos.succ Z.eqb Pos.eqb].
  change (Z.of_nat 64 =? 64) with true. cbv iota.
  eexists. split; [reflexivity|].
  unfold Writer.length, Writer.buffer, Buffer.concat. cbn [Writer.m_buffer].
  split.
  - unfold Buffer.length in *. rewrite length_app. lia.
  - rewrite <- H32 at 1 2. rewrite Reader_hash_bytes, read_written_bytes.
    rewrite toString_hex_from_hex; [reflexivity|exact Hall|rewrite Hlen; reflexivity].
Qed.

Lemma hash_roundtrip_at_witness :
  let s := "00112233445566778899AABBCCDDEEFF00112233445566778899aabbccddeeff"%string in
  exists w',
    Writer.hash (Writer.PString s) (Writer.mk [7] 0) = (Return true, w')
    /\ Writer.length w' = Writer.length (Writer.mk [7] 0) + 32
    /\ Reader.hash 32 (Reader.mk (Writer.length (Writer.mk [7] 0)) (Writer.buffer w' ++ [9]))
       = (Return (lower_hex s),
          Reader.mk (Writer.length (Writer.mk [7] 0) + 32) (Writer.buffer w' ++ [9])).
Proof.
  apply (hash_roundtrip_at (Writer.mk [7] 0) [9]
           "00112233445566778899AABBCCDDEEFF00112233445566778899aabbccddeeff"); reflexivity.
Defined.

(** ** Varints: what follows the last octet, buffers without one, negative numbers *)

Lemma decode_loop_app b :
  forall rest shift acc v,
    Varint.decode_loop b shift acc = Return v ->
    Varint.decode_loop (b ++ rest) shift acc = Return v.
Proof.
  induction b as [|x b IH]; intros rest shift acc v; [intros [=]|].
  cbn [app Varint.decode_loop].
  destruct (if shift <? 28 then _ else _) as [value|]; [|intros [=]].
  destruct (128 <=? x); [apply IH|exact (fun H => H)].
Qed.

(** [decode] stops at the first octet below 128: what follows it in the
    buffer has no part in the result. *)
Theorem varint_decode_ignores_rest (b rest : Buffer.t) (v : Z) :
  Varint.decode b = Return v -> Varint.decode (b ++ rest) = Return v.
Proof. apply decode_loop_app. Qed.

Lemma varint_decode_ignores_rest_witness :
  Varint.decode ([255; 1] ++ [7; 128]) = Return 255.
Proof. apply (varint_decode_ignores_rest [255; 1] [7; 128] 255). reflexivity. Defined.

Lemma decode_loop_unterminated b :
  Forall continuation b ->
  forall k acc,
    0 <= k -> Z.of_nat (List.length b) + k <= 146 ->
    Varint.decode_loop b (7 * k) acc = Throw (RangeError "Could not decode varint").
Proof.
  induction 1 as [|x b Hx _ IH]; intros k acc Hk Hlen; [reflexivity|].
  cbn [List.length] in Hlen.
  assert (H7 : 7 * (k + 1) <= 1022) by lia.
  rewrite decode_step.
  - unfold continuation in Hx. destruct (128 <=? x) eqn:E; [|apply Z.leb_gt in E; lia].
    apply IH; lia.
  - apply continuation_octet. exact Hx.
  - exact Hk.
  - lia.
  - assert (Hm : 0 <= x mod 128 < 128) by divlia.
    apply Z.lt_le_trans with (128 * 2 ^ (7 * k)).
    + apply Z.mul_lt_mono_pos_r; [apply Z.pow_pos_nonneg; lia|lia].
    + rewrite <- pow_7_succ by lia. apply Z.pow_le_mono_r; lia.
Qed.

Lemma decode_loop_unterminated_any b :
  Forall continuation b ->
  forall shift acc, exists msg, Varint.decode_loop b shift acc = Throw (RangeError msg).
Proof.
  induction 1 as [|x b Hx _ IH]; intros shift acc; [eexists; reflexivity|].
  cbn [Varint.decode_loop].
  destruct (if shift <? 28 then _ else _) as [value|]; [|eexists; reflexivity].
  unfold continuation in Hx. destruct (128 <=? x) eqn:E; [|apply Z.leb_gt in E; lia].
  apply IH.
Qed.

(** A buffer with no octet below 128, the empty buffer among them, is not
    decoded: [decode] throws a [RangeError], which is
    ['Could not decode varint'] up to 146 octets (longer ones can overflow
    the double-precision product first). *)
Theorem varint_decode_unterminated (b : Buffer.t) :
  Forall continuation b ->
  (exists msg, Varint.decode b = Throw (RangeError msg))
  /\ (Buffer.length b <= 146 ->
      Varint.decode b = Throw (RangeError "Could not decode varint")).
Proof.
  intros Hb. split.
  - apply decode_loop_unterminated_any. exact Hb.
  - intros Hlen. unfold Varint.decode. change 0 with (7 * 0) at 1.
    apply decode_loop_unterminated; [exact Hb|lia|unfold Buffer.length in Hlen; lia].
Qed.

Lemma varint_decode_unterminated_witness :
  (exists msg, Varint.decode [255; 128] = Throw (RangeError msg))
  /\ (Buffer.length [255; 128] <= 146 ->
      Varint.decode [255; 128] = Throw (RangeError "Could not decode varint")).
Proof.
  apply (varint_decode_unterminated [255; 128]).
  repeat (constructor; [unfold continuation; lia|]). constructor.
Defined.

(** [encode] has no test of the sign: a negative number (above [-2^53],
    where the conversion to a JavaScript number is exact) is one octet, its
    low eight bits, and never decodes back to the number. *)
Theorem varint_encode_negative (num : Z) :
  - 2 ^ 53 <= num < 0 ->
  Varint.encode num = [num mod 256]
  /\ Varint.decode (Varint.encode num) <> Return num.
Proof.
  intros Hn.
  assert (Henc : Varint.encode num = [num mod 256]).
  { unfold Varint.encode. rewrite Z.log2_nonpos by lia. change (S (Z.to_nat 0)) with 1%nat.
    cbn [Varint.encode_loop1].
    destruct (2 ^ 31 <=? num) eqn:E; [apply Z.leb_le in E; lia|].
    cbn [Varint.encode_loop2].
    destruct (0 <? Z.land num (Z.lnot 127)) eqn:E'.
    - apply Z.ltb_lt in E'.
      assert (Z.land num (Z.lnot 127) < 0) by (apply Z.land_neg; split; [lia|reflexivity]). lia.
    - cbn [app Buffer.from_array map]. rewrite Z.lor_0_r.
      change 255 with (Z.ones 8). rewrite Z.land_ones by lia. reflexivity. }
  split; [exact Henc|]. rewrite Henc.
  assert (Hm : 0 <= num mod 256 < Z.of_nat 256) by divlia.
  apply (forall_below
           (fun m => match Varint.decode [m] with
                     | Return v => 0 <=? v
                     | Throw _ => true
                     end) 256) in Hm; [|vm_compute; reflexivity].
  destruct (Varint.decode [num mod 256]) as [v|e]; [|discriminate].
  apply Z.leb_le in Hm. intros [=]. lia.
Qed.

Lemma varint_encode_negative_witness :
  Varint.encode (-1) = [(-1) mod 256]
  /\ Varint.decode (Varint.encode (-1)) <> Return (-1).
Proof. apply (varint_encode_negative (-1)). split; [vm_compute; discriminate|lia]. Defined.

(** ** Varints through the writer and the reader *)

(** The varint of [Writer.varint] without [levin] is read back by
    [Reader.varint] from the position where it was written, whatever
    follows; with [peek] the cursor stays. *)
Theorem varint_roundtrip_at (w : Writer.t) (post : Buffer.t) (x : Z) (peek : bool) :
  0 <= x < 2 ^ 1024 ->
  exists w',
    Writer.varint x false w = (Return true, w')
    /\ Reader.varint peek false (Reader.mk (Writer.length w) (Writer.buffer w' ++ post))
       = (Return x,
          Reader.mk (if peek then Writer.length w else Writer.length w') (Writer.buffer w' ++ post)).
Proof.
  intros Hx.
  destruct (encode_spec x Hx) as (conts & last & Henc & Hconts & Hlast & Hdec).
  eexists. split; [reflexivity|].
  unfold Writer.length, Writer.buffer, Buffer.concat, Buffer.length. cbn [Writer.m_buffer].
  set (buf := (Writer.m_buffer w ++ Varint.encode x) ++ post).
  set (o := Z.of_nat (List.length (Writer.m_buffer w))).
  unfold Reader.varint. unfold bind at 1. unfold get at 1.
  cbn [negb Reader.m_current_offset Reader.m_buffer].
  pose proof (varint_loop_spec buf o peek last post conts Hconts Hlast ltac:(lia) []
                (S (List.length buf))) as H.
  cbn [app List.length Z.of_nat] in H. rewrite Z.add_0_r in H.
  rewrite H.
  - rewrite <- Henc, Hdec. rewrite length_app. f_equal. f_equal.
    destruct peek; [reflexivity|]. unfold o. lia.
  - unfold buf, o. rewrite Nat2Z.id, <- app_assoc, drop_app_length, Henc, <- app_assoc. reflexivity.
  - unfold buf. rewrite Henc, !length_app. lia.
Qed.

Lemma varint_roundtrip_at_witness :
  exists w',
    Writer.varint 300 false (Writer.mk [7] 0) = (Return true, w')
    /\ Reader.varint true false (Reader.mk (Writer.length (Writer.mk [7] 0)) (Writer.buffer w' ++ [9]))
       = (Return 300,
          Reader.mk (if true then Writer.length (Writer.mk [7] 0) else Writer.length w')
            (Writer.buffer w' ++ [9])).
Proof.
  apply (varint_roundtrip_at (Writer.mk [7] 0) [9] 300 true). split; [lia|reflexivity].
Defined.

Lemma varint_loop_unterminated buf peek start rest :
  Forall continuation rest -> 0 <= start ->
  forall (done : list Z) fuel,
    (Z.to_nat start + List.length done <= List.length buf)%nat ->
    drop (Z.to_nat start + List.length done) buf = rest ->
    (List.length rest < fuel)%nat ->
    Reader.varint_loop fuel start peek (Reader.mk (start + Z.of_nat (List.length done)) buf)
    = (Throw (Buffer.boundsError buf 1), Reader.mk (Buffer.length buf) buf).
Proof.
  intros Hrest Hstart.
  induction Hrest as [|c rest Hc _ IH]; intros done fuel Hin Hdrop Hfuel.
  - destruct fuel as [|fuel]; [simpl in Hfuel; lia|].
    assert (Hlen : List.length buf = (Z.to_nat start + List.length done)%nat).
    { apply (f_equal List.length) in Hdrop. rewrite length_drop in Hdrop. simpl in Hdrop. lia. }
    cbn [Reader.varint_loop]. unfold bind at 1. unfold get at 1.
    unfold bind at 1. unfold lift at 1. cbn [Reader.m_buffer Reader.m_current_offset].
    unfold Buffer.readUInt8, Buffer.in_range, Buffer.length.
    destruct (_ && _) eqn:E.
    + apply andb_true_iff in E. destruct E as [_ E]. apply Z.leb_le in E. lia.
    + f_equal. f_equal. lia.
  - destruct fuel as [|fuel]; [simpl in Hfuel; lia|]. simpl in Hfuel.
    assert (Hlook : buf !! Z.to_nat (start + Z.of_nat (List.length done)) = Some c).
    { replace (Z.to_nat (start + Z.of_nat (List.length done)))
        with (Z.to_nat start + List.length done + 0)%nat by lia.
      rewrite <- lookup_drop, Hdrop. reflexivity. }
    cbn [Reader.varint_loop]. unfold bind at 1. unfold get at 1.
    unfold bind at 1. unfold lift at 1. cbn [Reader.m_buffer Reader.m_current_offset].
    rewrite (readUInt8_lookup buf (start + Z.of_nat (List.length done)) _) by (try exact Hlook; lia).
    destruct (c <? 128) eqn:E; [apply Z.ltb_lt in E; unfold continuation in Hc; lia|clear E].
    unfold bind at 1. unfold Reader.advance at 1. cbn [Reader.m_buffer Reader.m_current_offset].
    specialize (IH (done ++ [c]) fuel).
    rewrite length_app in IH. cbn [List.length] in IH.
    replace (start + Z.of_nat (List.length done + 1)) with (start + Z.of_nat (List.length done) + 1)
      in IH by lia.
    pose proof (lookup_lt_Some _ _ _ Hlook) as Hlt.
    apply IH; [lia| |lia].
    replace (Z.to_nat start + (List.length done + 1))%nat
      with (Z.to_nat start + List.length done + 1)%nat by lia.
    rewrite <- drop_drop, Hdrop. reflexivity.
Qed.

(** Reading a varint where no unread octet is below 128: the loop runs off
    the end of the buffer, [readUInt8] throws its [RangeError], which is
    [ERR_BUFFER_OUT_OF_BOUNDS] on an empty buffer and [ERR_OUT_OF_RANGE]
    on any other, and the cursor is left at the end of the buffer, with
    [peek] as without it. *)
Theorem varint_read_unterminated (r : Reader.t) (peek : bool) :
  0 <= Reader.offset r <= Reader.length r ->
  Forall continuation (Reader.unreadBuffer r) ->
  Reader.varint peek false r
  = (Throw (RangeError (if Reader.length r =? 0
                        then "ERR_BUFFER_OUT_OF_BOUNDS"
                        else "ERR_OUT_OF_RANGE offset")),
     Reader.mk (Reader.length r) (Reader.buffer r)).
Proof.
  intros Ho Hc. destruct r as [o buf].
  unfold Reader.unreadBuffer in *.
  unfold Reader.offset, Reader.length, Reader.buffer in *.
  cbn [Reader.m_current_offset Reader.m_buffer] in *.
  assert (Herr : RangeError (if Buffer.length buf =? 0
                             then "ERR_BUFFER_OUT_OF_BOUNDS"
                             else "ERR_OUT_OF_RANGE offset")
                 = Buffer.boundsError buf 1).
  { unfold Buffer.boundsError, Buffer.length.
    destruct (_ =? 0) eqn:E0; [apply Z.eqb_eq in E0|apply Z.eqb_neq in E0];
      (destruct (_ <? 0) eqn:E1; [apply Z.ltb_lt in E1|apply Z.ltb_ge in E1]);
      first [reflexivity|lia]. }
  rewrite Herr. unfold Buffer.length in Ho.
  unfold Reader.varint. unfold bind at 1. unfold get at 1.
  cbn [negb Reader.m_current_offset Reader.m_buffer].
  pose proof (varint_loop_unterminated buf peek o _ Hc ltac:(lia) [] (S (List.length buf))) as H.
  cbn [app List.length Z.of_nat] in H. rewrite Z.add_0_r, Nat.add_0_r in H.
  apply H; [lia| |].
  - rewrite slice_from_nonneg by lia. reflexivity.
  - rewrite slice_from_nonneg by lia. rewrite length_drop. lia.
Qed.

Lemma varint_read_unterminated_witness :
  Reader.varint true false (Reader.mk 1 [1; 128; 255])
  = (Throw (RangeError "ERR_OUT_OF_RANGE offset"), Reader.mk 3 [1; 128; 255])
  /\ Reader.varint false false (Reader.mk 0 [])
     = (Throw (RangeError "ERR_BUFFER_OUT_OF_BOUNDS"), Reader.mk 0 []).
Proof.
  split.
  - apply (varint_read_unterminated (Reader.mk 1 [1; 128; 255]) true).
    + vm_compute. split; discriminate.
    + repeat (constructor; [unfold continuation; lia|]). constructor.
  - apply (varint_read_unterminated (Reader.mk 0 []) false).
    + vm_compute. split; discriminate.
    + constructor.
Defined.

(** ** The writer only appends *)

Lemma appended_refl w : appended w w [].
Proof. unfold appended. rewrite app_nil_r. destruct w; reflexivity. Qed.

Lemma appended_trans w1 w2 w3 s1 s2 :
  appended w1 w2 s1 -> appended w2 w3 s2 -> appended w1 w3 (s1 ++ s2).
Proof. unfold appended. intros -> ->. simpl. rewrite app_assoc. reflexivity. Qed.

Lemma grows_ret {A} (a : A) : grows (ret a).
Proof. intros w. exists []. apply appended_refl. Qed.

Lemma grows_throw {A} e : grows (@throw Writer.t A e).
Proof. intros w. exists []. apply appended_refl. Qed.

Lemma grows_lift {A} (c : completion A) : grows (lift c).
Proof. intros w. exists []. unfold lift. destruct c; apply appended_refl. Qed.

Lemma grows_bind {A B} (m : M Writer.t A) (k : A -> M Writer.t B) :
  grows m -> (forall a, grows (k a)) -> grows (bind m k).
Proof.
  intros Hm Hk w. unfold bind. destruct (Hm w) as [s1 H1].
  destruct (m w) as [[a|e] w']; cbn [snd] in H1.
  - destruct (Hk a w') as [s2 H2]. exists (s1 ++ s2). eapply appended_trans; eassumption.
  - exists s1. exact H1.
Qed.

Lemma grows_write p : grows (Writer.write p).
Proof. intros w. destruct p; eexists; reflexivity. Qed.

Ltac grows_step :=
  match goal with
  | |- grows (bind _ _) => apply grows_bind; [|intro]
  | |- grows (ret _) => apply grows_ret
  | |- grows (throw _) => apply grows_throw
  | |- grows (lift _) => apply grows_lift
  | |- grows (Writer.write _) => apply grows_write
  | |- grows (if ?c then _ else _) => destruct c
  | |- grows (match ?c with _ => _ end) => destruct c
  end.

Lemma grows_uint_t value bits be : grows (Writer.uint_t value bits be).
Proof. unfold Writer.uint_t. repeat grows_step. Qed.

Lemma grows_levin_bytes count : forall i tempValue, grows (Writer.levin_bytes count i tempValue).
Proof.
  induction count as [|count IH]; intros i tempValue; cbn [Writer.levin_bytes].
  - apply grows_ret.
  - apply grows_bind; [apply grows_uint_t|intros _; apply IH].
Qed.

(** No operation of the writer but [clear] changes what was written: after
    [write], [hash], [hex], [uint_t], [int_t], [time_t] and [varint], also
    after one that threw, the buffer is the buffer before followed by what
    was appended, and the read index of the stream is untouched. *)
Theorem writer_appends_only (p : Writer.payload) (value : Z) (bits : option Z)
    (be levin : bool) (d : Date) :
  grows (Writer.write p) /\ grows (Writer.hash p) /\ grows (Writer.hex p)
  /\ grows (Writer.uint_t value bits be) /\ grows (Writer.int_t value bits be)
  /\ grows (Writer.time_t d be) /\ grows (Writer.varint value levin).
Proof.
  split; [apply grows_write|].
  split; [unfold Writer.hash; repeat grows_step|].
  split; [unfold Writer.hex; repeat grows_step|].
  split; [apply grows_uint_t|].
  split; [unfold Writer.int_t; repeat grows_step|].
  split; [unfold Writer.time_t; repeat grows_step|].
  unfold Writer.varint. repeat grows_step; apply grows_levin_bytes.
Qed.

(** ** The writer as a readable stream *)

Lemma _read_loop_spec fuel :
  forall size pushed w,
    0 < size -> 0 <= Writer.m_readIndex w <= Writer.length w ->
    Writer.length w - Writer.m_readIndex w < Z.of_nat fuel ->
    exists chunks,
      Writer._read_loop fuel size pushed w
      = (Return (pushed ++ map Some chunks ++ [None]),
         Writer.mk (Writer.m_buffer w) (Writer.length w))
      /\ concat chunks = drop (Z.to_nat (Writer.m_readIndex w)) (Writer.m_buffer w)
      /\ Forall (fun c => 0 < Buffer.length c <= size) chunks.
Proof.
  induction fuel as [|fuel IH]; intros size pushed [buf idx] Hsize Hidx Hfuel;
    unfold Writer.length, Buffer.length in *; cbn [Writer.m_buffer Writer.m_readIndex] in *; [lia|].
  cbn [Writer._read_loop]. unfold bind at 1. unfold get at 1.
  unfold Writer.length, Buffer.length. cbn [Writer.m_buffer Writer.m_readIndex].
  set (slice := if Z.of_nat (List.length buf) <? idx + size
                then Buffer.slice_from buf idx else Buffer.slice buf idx (idx + size)).
  assert (Hslice : slice = take (Z.to_nat size) (drop (Z.to_nat idx) buf)).
  { unfold slice. destruct (_ <? _) eqn:E.
    - apply Z.ltb_lt in E. rewrite slice_from_nonneg by lia.
      symmetry. apply take_ge. rewrite length_drop. lia.
    - apply slice_nonneg; lia. }
  assert (Hlen : Z.of_nat (List.length slice) = Z.min size (Z.of_nat (List.length buf) - idx)).
  { rewrite Hslice, length_take, length_drop. lia. }
  unfold bind at 1. cbn [Writer.m_buffer Writer.m_readIndex].
  destruct (0 <? Z.of_nat (List.length slice)) eqn:E.
  - apply Z.ltb_lt in E.
    destruct (IH size (pushed ++ [Some slice])
                (Writer.mk buf (idx + Z.of_nat (List.length slice))) Hsize)
      as (chunks & Hrun & Hcat & Hall);
      unfold Writer.length, Buffer.length in *; cbn [Writer.m_buffer Writer.m_readIndex] in *;
      [lia|lia|].
    exists (slice :: chunks). split; [|split].
    + rewrite Hrun. rewrite <- app_assoc. reflexivity.
    + cbn [concat]. rewrite Hcat.
      replace (Z.to_nat (idx + Z.of_nat (List.length slice)))
        with (Z.to_nat idx + List.length slice)%nat by lia.
      rewrite <- drop_drop. rewrite Hslice at 1.
      replace (List.length slice) with (Z.to_nat size `min` List.length (drop (Z.to_nat idx) buf))%nat
        by (rewrite Hslice, length_take; reflexivity).
      destruct (Nat.le_gt_cases (Z.to_nat size) (List.length (drop (Z.to_nat idx) buf))).
      * rewrite Nat.min_l by lia. apply take_drop.
      * rewrite Nat.min_r by lia. rewrite drop_all, app_nil_r. apply take_ge. lia.
    + constructor; [unfold Buffer.length; lia|exact Hall].
  - apply Z.ltb_ge in E. exists []. unfold ret. split; [|split].
    + f_equal. f_equal. lia.
    + simpl. symmetry. apply drop_ge. lia.
    + constructor.
Qed.

(** [_read(size)] streams the data that was not yet streamed: it pushes
    the octets from the read index on, in order, in chunks of at most
    [size] octets, none of them empty, then [null], and leaves the read
    index at the end of the data. *)
Theorem read_streams_the_rest (w : Writer.t) (size : Z) :
  0 < size -> 0 <= Writer.m_readIndex w <= Writer.length w ->
  exists chunks,
    Writer._read size w
    = (Return (map Some chunks ++ [None]), Writer.mk (Writer.m_buffer w) (Writer.length w))
    /\ concat chunks = drop (Z.to_nat (Writer.m_readIndex w)) (Writer.m_buffer w)
    /\ Forall (fun c => 0 < Buffer.length c <= size) chunks.
Proof.
  intros Hsize Hidx. unfold Writer._read. unfold bind at 1. unfold get at 1.
  destruct (_read_loop_spec (S (List.length (Writer.m_buffer w))) size [] w Hsize Hidx)
    as (chunks & Hrun & Hrest); [unfold Writer.length, Buffer.length in *; lia|].
  exists chunks. split; [exact Hrun|exact Hrest].
Qed.

Lemma read_streams_the_rest_witness :
  exists chunks,
    Writer._read 2 (Writer.mk [1; 2; 3; 4; 5] 0)
    = (Return (map Some chunks ++ [None]),
       Writer.mk (Writer.m_buffer (Writer.mk [1; 2; 3; 4; 5] 0))
         (Writer.length (Writer.mk [1; 2; 3; 4; 5] 0)))
    /\ concat chunks
       = drop (Z.to_nat (Writer.m_readIndex (Writer.mk [1; 2; 3; 4; 5] 0)))
           (Writer.m_buffer (Writer.mk [1; 2; 3; 4; 5] 0))
    /\ Forall (fun c => 0 < Buffer.length c <= 2) chunks.
Proof.
  apply (read_streams_the_rest (Writer.mk [1; 2; 3; 4; 5] 0) 2); [lia|].
  vm_compute. split; discriminate.
Defined.

(** [clear()] empties the buffer and keeps the read index of the stream:
    data written after a [clear], as long as it is not longer than what was
    streamed before, is never streamed; [_read] pushes [null] at once. *)
Theorem read_index_survives_clear (w : Writer.t) (b : Buffer.t) (size : Z) :
  0 < size -> Buffer.length b <= Writer.m_readIndex w ->
  (Writer.clear ;; Writer.write (Writer.PBuffer b) ;; Writer._read size) w
  = (Return [None], Writer.mk b (Writer.m_readIndex w)).
Proof.
  intros Hsize Hidx. destruct w as [buf idx]. cbn [Writer.m_readIndex] in Hidx.
  unfold bind at 1. unfold Writer.clear at 1. cbn [Writer.m_readIndex].
  unfold bind at 1. unfold Writer.write at 1. unfold Buffer.concat.
  cbn [Writer.m_buffer Writer.m_readIndex app].
  unfold Writer._read. unfold bind at 1. unfold get at 1. cbn [Writer.m_buffer].
  cbn [Writer._read_loop]. unfold bind at 1. unfold get at 1.
  unfold Writer.length. cbn [Writer.m_buffer Writer.m_readIndex].
  assert (Hempty : (if Buffer.length b <? idx + size
                    then Buffer.slice_from b idx else Buffer.slice b idx (idx + size)) = []).
  { unfold Buffer.length in *.
    destruct (_ <? _) eqn:E; [|apply Z.ltb_ge in E; lia].
    rewrite slice_from_nonneg by lia. apply drop_ge. lia. }
  rewrite Hempty. unfold bind, ret. cbn [Writer.m_buffer Writer.m_readIndex].
  change (Buffer.length []) with 0. cbn [Z.ltb Z.compare app]. rewrite Z.add_0_r. reflexivity.
Qed.

Lemma read_index_survives_clear_witness :
  (Writer.clear ;; Writer.write (Writer.PBuffer [8; 9]) ;; Writer._read 16) (Writer.mk [1; 2; 3] 3)
  = (Return [None], Writer.mk [8; 9] (Writer.m_readIndex (Writer.mk [1; 2; 3] 3))).
Proof.
  apply (read_index_survives_clear (Writer.mk [1; 2; 3] 3) [8; 9] 16); [lia|].
  vm_compute. discriminate.
Defined.

(** ** Unsigned values beyond the width *)

Lemma from_hex_octets s : Forall octet (Buffer.from_hex s).
Proof.
  induction s as [|a|a b s IH] using string_pair_ind; try constructor.
  cbn [Buffer.from_hex].
  destruct (Buffer.unhex a) as [x|] eqn:Ea; [|constructor].
  destruct (Buffer.unhex b) as [y|] eqn:Eb; [|constructor].
  pose proof (unhex_digit _ _ Ea) as Hx. pose proof (unhex_digit _ _ Eb) as Hy.
  constructor; [|exact IH].
  rewrite lor_shiftl_4 by assumption. unfold octet. unfold digit16 in Hx, Hy. clear IH Ea Eb. lia.
Qed.

Lemma be_value_bound l : Forall octet l -> 0 <= Buffer.be_value l < 256 ^ Z.of_nat (List.length l).
Proof.
  induction l as [|x l IH] using rev_ind; intros Hl; [vm_compute; split; [discriminate|reflexivity]|].
  apply Forall_app in Hl. destruct Hl as [Hl Hx]. inversion Hx as [|? ? Hx' _]; subst.
  specialize (IH Hl). rewrite be_value_snoc, length_app. cbn [List.length].
  replace (Z.of_nat (List.length l + 1)) with (Z.of_nat (List.length l) + 1) by lia.
  rewrite Z.pow_add_r by lia. unfold octet in Hx'. nia.
Qed.

Lemma length_writeUIntBE_ge x n :
  0 <= x -> 0 < n -> n <= Buffer.length (Writer.writeUIntBE x n).
Proof.
  intros Hx Hn. unfold Writer.writeUIntBE.
  destruct (toBase_digits x Hx) as (Hdig & _ & _).
  rewrite toString16_nonneg, padStart_chars by lia.
  set (ds := replicate _ 0 ++ BigInteger.toBase x).
  assert (Hds : Forall digit16 ds).
  { apply Forall_app. split; [|exact Hdig]. apply Forall_replicate. unfold digit16. lia. }
  rewrite from_hex_chars by exact Hds.
  unfold Buffer.length. rewrite length_octets_of_digits.
  assert (Hlen : (2 * Z.to_nat n <= List.length ds)%nat).
  { unfold ds. rewrite length_app, length_replicate. lia. }
  rewrite Nat.div2_div.
  assert (Z.to_nat n <= List.length ds / 2)%nat; [|lia].
  apply Nat.div_le_lower_bound; lia.
Qed.

Lemma reverse_into_outside l :
  forall T p, p < 0 -> fst (Writer.reverse_into l T p) = T.
Proof.
  unfold Writer.reverse_into.
  induction l as [|a l IH]; intros T p Hp; [reflexivity|].
  cbn [fold_left]. rewrite IH by lia.
  unfold Buffer.set. destruct (0 <=? p) eqn:E; [apply Z.leb_le in E; lia|reflexivity].
Qed.

Lemma reverse_into_longer l n :
  Forall octet l -> (n <= List.length l)%nat ->
  fst (Writer.reverse_into l (replicate n 0) (Z.of_nat n - 1)) = reverse (take n l).
Proof.
  intros Hl Hn. rewrite <- (take_drop n l) at 1.
  unfold Writer.reverse_into. rewrite fold_left_app.
  pose proof (reverse_into_spec (take n l) (Forall_take _ _ _ Hl) (replicate n 0)) as H.
  rewrite length_take, length_replicate, Nat.min_l in H by lia.
  unfold Writer.reverse_into in H. rewrite H by lia.
  rewrite (drop_ge (replicate n 0)) by (rewrite length_replicate; lia). rewrite app_nil_r.
  apply (reverse_into_outside (drop n l) (reverse (take n l)) (-1)). lia.
Qed.

(** [uint_t] with an explicit width has no test of the range: a value of
    [2^b] or more is written without an error, and reading [b] bits back
    where it was written gives a value below [2^b], another value. *)
Theorem uint_t_beyond_width (w : Writer.t) (post : Buffer.t) (b : Z) (be : bool) (x : Z) :
  0 < b <= 8192 -> b mod 8 = 0 -> 2 ^ b <= x ->
  exists w' v r',
    Writer.uint_t x (Some b) be w = (Return true, w')
    /\ Reader.uint_t b be (Reader.mk (Writer.length w) (Writer.buffer w' ++ post)) = (Return v, r')
    /\ 0 <= v < 2 ^ b.
Proof.
  intros [Hb _] Hm Hx. destruct (multiple_of_8 b Hb Hm) as (Hrem & Hquot & Hn & H8).
  assert (Hx0 : 0 <= x) by (assert (0 < 2 ^ b) by (apply Z.pow_pos_nonneg; lia); lia).
  pose proof (length_writeUIntBE_ge x (b / 8) Hx0 Hn) as Hlen.
  assert (Hoct : Forall octet (Writer.writeUIntBE x (b / 8))) by apply from_hex_octets.
  set (top := take (Z.to_nat (b / 8)) (Writer.writeUIntBE x (b / 8))).
  assert (Htop : Forall octet top) by (apply Forall_take; exact Hoct).
  assert (Htoplen : List.length top = Z.to_nat (b / 8)).
  { unfold top. rewrite length_take. unfold Buffer.length in Hlen. lia. }
  set (octs := if be then Writer.writeUIntBE x (b / 8) else reverse top).
  assert (Hw : Writer.uint_t x (Some b) be w
               = (Return true, Writer.mk (Writer.m_buffer w ++ octs) (Writer.m_readIndex w))).
  { unfold Writer.uint_t, octs.
    destruct (x <? 0) eqn:E; [apply Z.ltb_lt in E; lia|].
    unfold Writer.falsy. destruct (b =? 0) eqn:E0; [apply Z.eqb_eq in E0; lia|].
    unfold bind at 1. unfold ret at 1. rewrite Hrem, Hquot. cbn [Z.eqb negb].
    destruct be; [reflexivity|].
    unfold bind, lift, Writer.writeUIntLE, Buffer.alloc.
    destruct (b / 8 <? 0) eqn:E1; [apply Z.ltb_lt in E1; lia|].
    fold (Writer.writeUIntBE x (b / 8)).
    replace (b / 8 - 1) with (Z.of_nat (Z.to_nat (b / 8)) - 1) by lia.
    rewrite reverse_into_longer; [reflexivity|exact Hoct|unfold Buffer.length in Hlen; lia]. }
  exists (Writer.mk (Writer.m_buffer w ++ octs) (Writer.m_readIndex w)), (Buffer.be_value top).
  eexists. split; [exact Hw|].
  unfold Writer.length, Writer.buffer, Buffer.length in *. cbn [Writer.m_buffer].
  assert (Hs : take (Z.to_nat (b / 8))
                 (drop (Z.to_nat (Z.of_nat (List.length (Writer.m_buffer w))))
                    ((Writer.m_buffer w ++ octs) ++ post))
               = if be then top else reverse top).
  { rewrite Nat2Z.id, <- app_assoc, drop_app_length. unfold octs. destruct be.
    - rewrite take_app_le by lia. reflexivity.
    - rewrite take_app_length'; [reflexivity|rewrite length_reverse; lia]. }
  split.
  - rewrite Reader_uint_t_spec;
      unfold Reader.offset, Reader.length, Buffer.length;
      cbn [Reader.m_current_offset Reader.m_buffer]; try assumption; try lia.
    + cbv zeta. rewrite Hs. f_equal. f_equal.
      destruct be; [reflexivity|]. rewrite reverse_involutive. reflexivity.
    + rewrite !length_app. unfold octs. destruct be; [lia|rewrite length_reverse; lia].
    + cbv zeta. rewrite Hs. destruct be; [exact Htop|apply Forall_reverse; exact Htop].
  - pose proof (be_value_bound top Htop) as Hbound. rewrite Htoplen in Hbound.
    rewrite Z2Nat.id, pow_256, H8 in Hbound by lia. exact Hbound.
Qed.

Lemma uint_t_beyond_width_witness :
  exists w' v r',
    Writer.uint_t 4660 (Some 8) false (Writer.mk [7] 0) = (Return true, w')
    /\ Reader.uint_t 8 false (Reader.mk (Writer.length (Writer.mk [7] 0)) (Writer.buffer w' ++ [9]))
       = (Return v, r')
    /\ 0 <= v < 2 ^ 8.
Proof.
  apply (uint_t_beyond_width (Writer.mk [7] 0) [9] 8 false 4660); [lia|reflexivity|].
  change (2 ^ 8) with 256. lia.
Defined.

(** ** From a writer to a reader through the hexadecimal text *)

Lemma length_toString_hex b :
  String.length (Buffer.toString_hex b) = (2 * List.length b)%nat.
Proof. induction b as [|x b IH]; [reflexivity|]. cbn [Buffer.toString_hex String.length List.length]. lia. Qed.

(** The text [blob] of a writer carries its data to a reader: a reader
    constructed from the text has the cursor at 0 and a buffer with the
    octets of the writer, and [append] of the text extends a reader by
    these octets and keeps its cursor, as [append] of the writer does
    ([Buffer.concat] copies both). *)
Theorem blob_transport (w : Writer.t) (r : Reader.t) :
  Forall octet (Writer.buffer w) ->
  Reader.new (Reader.BString (Writer.blob w)) = Return (Reader.mk 0 (Writer.buffer w))
  /\ Reader.append (Reader.BString (Writer.blob w)) r
     = (Return tt, Reader.mk (Reader.offset r) (Reader.buffer r ++ Writer.buffer w))
  /\ Reader.append (Reader.BString (Writer.blob w)) r = Reader.append (Reader.BWriter w) r.
Proof.
  intros Hw. unfold Reader.new, Writer.blob.
  rewrite from_hex_toString_hex by exact Hw.
  split; [reflexivity|].
  unfold Reader.append, Reader.to_buffer, bind, lift.
  rewrite length_toString_hex.
  replace (2 * List.length (Writer.buffer w))%nat with (List.length (Writer.buffer w) * 2)%nat by lia.
  rewrite Nat.Div0.mod_mul. cbn [Nat.eqb].
  rewrite from_hex_toString_hex by exact Hw. split; reflexivity.
Qed.

Lemma blob_transport_witness :
  let w := Writer.mk [1; 171; 255] 0 in
  let r := Reader.mk 1 [9; 8] in
  Reader.new (Reader.BString (Writer.blob w)) = Return (Reader.mk 0 (Writer.buffer w))
  /\ Reader.append (Reader.BString (Writer.blob w)) r
     = (Return tt, Reader.mk (Reader.offset r) (Reader.buffer r ++ Writer.buffer w))
  /\ Reader.append (Reader.BString (Writer.blob w)) r = Reader.append (Reader.BWriter w) r.
Proof.
  apply (blob_transport (Writer.mk [1; 171; 255] 0) (Reader.mk 1 [9; 8])).
  repeat (constructor; [unfold octet; lia|]). constructor.
Defined.

(** ** A reader constructed from a writer shares its buffer *)

Lemma time_t_true_whole (s : Buffer.t) :
  List.length s = 8%nat -> Forall octet s ->
  Reader.time_t true (Reader.mk 0 s)
  = (Return (newDate (Buffer.be_value (reverse s) * 1000)), Reader.mk 8 (reverse s)).
Proof.
  intros Hlen Hs.
  assert (Htake : take 8 (drop 0 s) = s) by (rewrite drop_0; apply take_ge; lia).
  rewrite Reader_time_t_spec;
    unfold Reader.offset, Reader.length, Reader.buffer, Buffer.length;
    cbn [Reader.m_current_offset Reader.m_buffer]; try lia.
  - cbv zeta. change (Z.to_nat 0) with 0%nat. rewrite Htake.
    rewrite take_0, drop_ge by (simpl; lia). rewrite app_nil_r. reflexivity.
  - cbv zeta. change (Z.to_nat 0) with 0%nat. rewrite Htake. exact Hs.
Qed.

(** A reader constructed from a writer holds the buffer of the writer
    itself: [time_t(true)] on the reader leaves the eight octets it read
    reversed in the data of the writer.  A reader constructed from the text
    of the same octets holds a buffer of its own, and the same call, which
    returns the same date, leaves the data of the writer as it was. *)
Theorem reader_shares_the_buffer_of_the_writer
    (h : Shared.heap) (w : Shared.writer) (s : Buffer.t) :
  h !! Shared.w_buffer w = Some s -> List.length s = 8%nat -> Forall octet s ->
  let d := newDate (Buffer.be_value (reverse s) * 1000) in
  (exists r r' h',
      Shared.new (Shared.BWriter w) h = (Return r, h)
      /\ Shared.r_buffer r = Shared.w_buffer w
      /\ Shared.time_t true (r, h) = (Return d, (r', h'))
      /\ Shared.contents (Shared.w_buffer w) h' = reverse s)
  /\ (exists r h0 r' h',
         Shared.new (Shared.BString (Buffer.toString_hex s)) h = (Return r, h0)
         /\ Shared.r_buffer r <> Shared.w_buffer w
         /\ Shared.contents (Shared.r_buffer r) h0 = s
         /\ Shared.contents (Shared.w_buffer w) h0 = s
         /\ Shared.time_t true (r, h0) = (Return d, (r', h'))
         /\ Shared.contents (Shared.w_buffer w) h' = s).
Proof.
  intros Hlook Hlen Hs. cbv zeta.
  unfold Shared.time_t, Shared.in_place, Shared.new, Shared.from_hex, Shared.contents.
  unfold Shared.heap, Shared.ref, Buffer.t in *.
  pose proof (lookup_lt_Some _ _ _ Hlook) as Hlt.
  split.
  - exists (Shared.mk_reader 0 (Shared.w_buffer w)). eexists. eexists.
    split; [reflexivity|]. split; [reflexivity|].
    cbn [Shared.r_current_offset Shared.r_buffer]. rewrite Hlook. cbn [default].
    rewrite time_t_true_whole by assumption.
    split; [reflexivity|].
    cbn [Reader.m_buffer]. rewrite list_lookup_insert_eq by exact Hlt. reflexivity.
  - exists (Shared.mk_reader 0 (List.length h)), (h ++ [s]). eexists. eexists.
    assert (Hown : (h ++ [s]) !! List.length h = Some s).
    { rewrite lookup_app_r by lia. rewrite Nat.sub_diag. reflexivity. }
    split.
    { unfold bind, ret. rewrite from_hex_toString_hex by exact Hs. reflexivity. }
    cbn [Shared.r_buffer].
    split; [lia|].
    rewrite Hown, lookup_app_l, Hlook by exact Hlt. cbn [default].
    split; [reflexivity|]. split; [reflexivity|].
    cbn [Shared.r_current_offset Shared.r_buffer].
    rewrite time_t_true_whole by assumption.
    split; [reflexivity|].
    cbn [Reader.m_buffer]. rewrite list_lookup_insert_ne by lia.
    rewrite lookup_app_l, Hlook by exact Hlt. reflexivity.
Qed.

Lemma reader_shares_the_buffer_of_the_writer_witness :
  let s := [28; 106; 3; 94; 0; 0; 0; 0] in
  let h := [[7]; s] in
  let w := Shared.mk_writer 1%nat 0 in
  let d := newDate (Buffer.be_value (reverse s) * 1000) in
  (exists r r' h',
      Shared.new (Shared.BWriter w) h = (Return r, h)
      /\ Shared.r_buffer r = Shared.w_buffer w
      /\ Shared.time_t true (r, h) = (Return d, (r', h'))
      /\ Shared.contents (Shared.w_buffer w) h' = reverse s)
  /\ (exists r h0 r' h',
         Shared.new (Shared.BString (Buffer.toString_hex s)) h = (Return r, h0)
         /\ Shared.r_buffer r <> Shared.w_buffer w
         /\ Shared.contents (Shared.r_buffer r) h0 = s
         /\ Shared.contents (Shared.w_buffer w) h0 = s
         /\ Shared.time_t true (r, h0) = (Return d, (r', h'))
         /\ Shared.contents (Shared.w_buffer w) h' = s).
Proof.
  apply (reader_shares_the_buffer_of_the_writer
           [[7]; [28; 106; 3; 94; 0; 0; 0; 0]] (Shared.mk_writer 1%nat 0)
           [28; 106; 3; 94; 0; 0; 0; 0]); [reflexivity|reflexivity|].
  repeat (constructor; [unfold octet; lia|]). constructor.
Defined.
